(** * The OpenShift image-stream bridge of containers/image

    A shallow embedding of [openshift/openshift.go] (the transport client,
    the reference translator, the image source resolver and the signature
    synchronizer) and of the manifest-list selector of package [image].

    Go strings and byte slices are byte sequences: both are [string] here.
    A Go [error] is identified with its message.  Everything the package
    reaches through an imported package or an interface (net/http,
    encoding/json, crypto/rand, the docker transport, package manifest) is
    a method of the class [Collaborators] or part of the explicit
    environment [Env] threaded through every call. *)

From stdpp Require Import base decidable option list strings gmap pretty.
From Stdlib Require Import ZArith Ascii String.

Open Scope string_scope.
Open Scope list_scope.
Open Scope Z_scope.

Abbreviation bytes := string.

(** ** Results of fallible calls: Go's [(value, error)] pairs *)

Inductive result (A : Type) : Type :=
| Ok (a : A)
| Err (e : string).
Arguments Ok {A} a.
Arguments Err {A} e.

Definition isOk {A} (r : result A) : bool :=
  match r with Ok _ => true | Err _ => false end.

(** ** Strings *)

Module Strings.

(** The characters of a string, in order. *)
Fixpoint chars (s : string) : list ascii :=
  match s with
  | EmptyString => []
  | String c rest => c :: chars rest
  end.

(** [cut sep s] splits [s] around the first occurrence of [sep]. *)
Fixpoint cut (sep : ascii) (s : string) : option (string * string) :=
  match s with
  | EmptyString => None
  | String c rest =>
      if Ascii.eqb c sep then Some (EmptyString, rest)
      else match cut sep rest with
           | Some (before, after) => Some (String c before, after)
           | None => None
           end
  end.

(** [strings.SplitN(s, sep, n)] for a one-byte separator and [n >= 0]:
    at most [n] substrings, the last one being the unsplit remainder;
    [n = 0] gives the nil slice. *)
Fixpoint SplitN (s : string) (sep : ascii) (n : nat) : list string :=
  match n with
  | O => []
  | S O => [s]
  | S n' =>
      match cut sep s with
      | Some (before, after) => before :: SplitN after sep n'
      | None => [s]
      end
  end.

Definition hexDigit (n : N) : ascii :=
  match n with
  | 0 => "0" | 1 => "1" | 2 => "2" | 3 => "3" | 4 => "4" | 5 => "5"
  | 6 => "6" | 7 => "7" | 8 => "8" | 9 => "9" | 10 => "a" | 11 => "b"
  | 12 => "c" | 13 => "d" | 14 => "e" | _ => "f"
  end%N%char.

(** [%x] of a byte slice: two lowercase hexadecimal digits per byte. *)
Fixpoint hex (b : bytes) : string :=
  match b with
  | EmptyString => EmptyString
  | String c rest =>
      let n := N_of_ascii c in
      String (hexDigit (n / 16)) (String (hexDigit (n mod 16)) (hex rest))
  end.

Fixpoint replicate0 (n : nat) : string :=
  match n with O => EmptyString | S n' => String "0" (replicate0 n') end.

(** [%032x]: the hexadecimal form, padded on the left with zeros to 32
    columns. *)
Definition fmt_032x (b : bytes) : string :=
  let h := hex b in replicate0 (32 - String.length h) +:+ h.

(** [%d]. *)
Definition fmt_d (n : Z) : string := pretty n.

Definition isLowerHex (c : ascii) : bool :=
  let n := N_of_ascii c in
  ((48 <=? n) && (n <=? 57) || (97 <=? n) && (n <=? 102))%N.

End Strings.

(** ** Data model: the subsets of the OpenShift API objects the package
    declares *)

Record typeMeta := {
  Kind : string;
  APIVersion : string
}.

(** Of [objectMeta] the package reads and writes [Name] only; the other
    fields keep their zero value in every object it builds. *)
Record objectMeta := {
  Name : string
}.

Definition imageSignatureTypeAtomic : string := "atomic".

Record imageSignature := {
  sig_typeMeta : typeMeta;
  sig_objectMeta : objectMeta;
  Type' : string;
  Content : bytes
}.

Record image := {
  img_objectMeta : objectMeta;
  img_DockerImageReference : string;
  DockerImageMetadataVersion : string;
  DockerImageManifest : string;
  Signatures : list imageSignature
}.

Record imageStreamImage := {
  Image : image
}.

Record tagEvent := {
  DockerImageReference : string;
  te_Image : string
}.

Record namedTagEventList := {
  Tag : string;
  Items : list tagEvent
}.

Record imageStreamStatus := {
  DockerImageRepository : string;
  Tags : list namedTagEventList
}.

Record imageStream := {
  is_Status : imageStreamStatus
}.

(** A subset of the Kubernetes status envelope. *)
Record status := {
  Status : string;
  Message : string;
  Code : Z
}.

#[global] Instance typeMeta_eq_dec : EqDecision typeMeta.
Proof. solve_decision. Defined.
#[global] Instance objectMeta_eq_dec : EqDecision objectMeta.
Proof. solve_decision. Defined.
#[global] Instance imageSignature_eq_dec : EqDecision imageSignature.
Proof. solve_decision. Defined.
#[global] Instance tagEvent_eq_dec : EqDecision tagEvent.
Proof. solve_decision. Defined.

(** ** References *)

(** What the package uses of the docker reference inside an OpenShift
    reference: the results of its [Hostname()] and [Tag()] methods. *)
Record dockerReference := {
  Hostname : string;
  ref_Tag : string
}.

Record openshiftReference := {
  dockerRef : dockerReference;
  namespace : string;
  stream : string
}.

(** ** HTTP requests and responses *)

(** A [url.URL]: its [Path], and in [url_base] all the rest of it
    (scheme, user, host, query). *)
Record URL := {
  url_base : string;
  Path : string
}.

Record Request := {
  Method : string;
  req_URL : URL;
  Header : gmap string (list string);
  req_Body : option bytes
}.

(** [Header.Set]: the key's values are replaced by the single new one. *)
Definition Header_Set (k v : string) (req : Request) : Request :=
  {| Method := Method req; req_URL := req_URL req;
     Header := <[k := [v]]> (Header req); req_Body := req_Body req |}.

(** A response: its status code and what [ioutil.ReadAll] makes of its
    body. *)
Record Response := {
  StatusCode : Z;
  resp_Body : result bytes
}.

Definition StatusSwitchingProtocols : Z := 101.
Definition StatusOK : Z := 200.
Definition StatusPartialContent : Z := 206.

(** ** crypto/rand *)

(** One call of [rand.Read] on a 16-byte buffer: the bytes the source
    delivers and the error it reports.  The call returns [n], the number
    of bytes written, at most 16; the rest of the buffer stays zero. *)
Record randRead := {
  rd_data : bytes;
  rd_err : option string
}.

Definition rd_n (r : randRead) : Z :=
  Z.min (Z.of_nat (String.length (rd_data r))) 16.

Fixpoint zeroBytes (n : nat) : bytes :=
  match n with O => EmptyString | S n' => String Ascii.zero (zeroBytes n') end.

Fixpoint takeBytes (n : nat) (b : bytes) : bytes :=
  match n, b with
  | S n', String c rest => String c (takeBytes n' rest)
  | _, _ => EmptyString
  end.

Definition randBytes (r : randRead) : bytes :=
  let written := takeBytes 16 (rd_data r) in
  written +:+ zeroBytes (16 - String.length written).

(** ** The environment *)

(** The state every call threads: the world outside the process ([W]: the
    API server and the registry behind the docker transport), the trace of
    the HTTP requests handed to the HTTP client so far, and the results of
    the coming reads of the random source. *)
Record Env (W : Type) := {
  world : W;
  sent : list Request;
  tape : list randRead
}.
Arguments world {W} _.
Arguments sent {W} _.
Arguments tape {W} _.

(** The collaborators of the package.  [D] is the type of the handles of
    the docker transport's image sources. *)
Class Collaborators (W D : Type) := {
  (* net/http *)
  http_NewRequest_error : string → URL → option string;
  httpClient_Do : Request → W → result Response * W;
  http_basicAuth : string → string → string;
  (* package version *)
  version_Version : string;
  (* encoding/json, at the types the package decodes and encodes *)
  json_Unmarshal_status : bytes → result status;
  json_Unmarshal_imageStream : bytes → result imageStream;
  json_Unmarshal_imageStreamImage : bytes → result imageStreamImage;
  json_Marshal_imageSignature : imageSignature → bytes;
  (* package manifest *)
  manifest_Digest : bytes → result string;
  (* the docker transport *)
  docker_NewImageSource : string → list string → W → result D * W;
  docker_PutManifest : bytes → W → option string * W
}.

(** ** openshiftClient *)

Record openshiftClient := {
  ref : openshiftReference;
  baseURL : URL;
  bearerToken : string;
  username : string;
  password : string
}.

Section Client.
Context {W D : Type} `{!Collaborators W D}.

Definition http_NewRequest (method : string) (url : URL)
    (body : option bytes) : result Request :=
  match http_NewRequest_error method url with
  | Some e => Err e
  | None => Ok {| Method := method; req_URL := url; Header := ∅;
                  req_Body := body |}
  end.

(** The credentials [doRequest] attaches: [req.Header.Set] for a bearer
    token, [req.SetBasicAuth] (which sets the same header) otherwise. *)
Definition setCredentials (c : openshiftClient) (req : Request) : Request :=
  if negb (String.length (bearerToken c) =? 0)%nat then
    Header_Set "Authorization" ("Bearer " +:+ bearerToken c) req
  else if negb (String.length (username c) =? 0)%nat then
    Header_Set "Authorization"
      ("Basic " +:+ http_basicAuth (username c) (password c)) req
  else req.

(** The request [doRequest] hands to the HTTP client.  Its URL is a copy
    of the client's base URL with the path replaced ([url := *c.baseURL;
    url.Path = path]): a path of the base URL itself is lost. *)
Definition buildRequest (c : openshiftClient) (method path : string)
    (requestBody : option bytes) : result Request :=
  let url := {| url_base := url_base (baseURL c); Path := path |} in
  match http_NewRequest method url requestBody with
  | Err e => Err e
  | Ok req =>
      let req := setCredentials c req in
      let req := Header_Set "Accept" "application/json, */*" req in
      let req := Header_Set "User-Agent" ("skopeo/" +:+ version_Version) req in
      let req := match requestBody with
                 | Some _ => Header_Set "Content-Type" "application/json" req
                 | None => req
                 end in
      Ok req
  end.

(** The classification of a response whose body was read. *)
Definition classify (code : Z) (body : bytes) : result bytes :=
  let decoded := json_Unmarshal_status body in
  let statusValid :=
    match decoded with
    | Ok st => (0 <? String.length (Status st))%nat
    | Err _ => false
    end in
  let st := match decoded with
            | Ok st => st
            | Err _ => {| Status := ""; Message := ""; Code := 0 |}
            end in
  if code =? StatusSwitchingProtocols then
    if statusValid && negb (String.eqb (Status st) "Success")
    then Err (Message st)
    else Ok body
  else if (StatusOK <=? code) && (code <=? StatusPartialContent) then
    Ok body
  else if statusValid then Err (Message st)
  else Err ("HTTP error: status code: " +:+ Strings.fmt_d code
            +:+ ", body: " +:+ body).

(** [doRequest] performs an authenticated request to a path and returns
    the response body or an error. *)
Definition doRequest (c : openshiftClient) (method path : string)
    (requestBody : option bytes) (env : Env W) : result bytes * Env W :=
  match buildRequest c method path requestBody with
  | Err e => (Err e, env)
  | Ok req =>
      let '(res, w) := httpClient_Do req (world env) in
      let env := {| world := w; sent := sent env ++ [req];
                    tape := tape env |} in
      match res with
      | Err e => (Err e, env)
      | Ok res =>
          match resp_Body res with
          | Err e => (Err e, env)
          | Ok body => (classify (StatusCode res) body, env)
          end
      end
  end.

(** [getImage] loads the specified image object. *)
Definition getImage (c : openshiftClient) (imageStreamImageName : string)
    (env : Env W) : result image * Env W :=
  let path := "/oapi/v1/namespaces/" +:+ namespace (ref c)
              +:+ "/imagestreamimages/" +:+ stream (ref c)
              +:+ "@" +:+ imageStreamImageName in
  match doRequest c "GET" path None env with
  | (Err e, env) => (Err e, env)
  | (Ok body, env) =>
      match json_Unmarshal_imageStreamImage body with
      | Err e => (Err e, env)
      | Ok isi => (Ok (Image isi), env)
      end
  end.

(** [convertDockerImageReference] turns the [DockerImageReference] of an
    API object into a reference usable from outside the cluster. *)
Definition convertDockerImageReference (c : openshiftClient)
    (r : string) : result string :=
  let parts := Strings.SplitN r "/" 2 in
  if negb (List.length parts =? 2)%nat then
    Err ("Invalid format of docker reference " +:+ r +:+ ": missing '/'")
  else
    Ok (Hostname (dockerRef (ref c)) +:+ "/" +:+ nth 1 parts "").

End Client.

(** ** openshiftImageSource *)

(** The [ctx] field is passed unread to the docker transport and is left
    out; [src_docker] is [None] until the image is resolved. *)
Record openshiftImageSource (D : Type) := {
  src_client : openshiftClient;
  requestedManifestMIMETypes : list string;
  src_docker : option D;
  src_imageStreamImageName : string
}.
Arguments src_client {D} _.
Arguments requestedManifestMIMETypes {D} _.
Arguments src_docker {D} _.
Arguments src_imageStreamImageName {D} _.

(** The loop of [ensureImageIsResolved] over [is.Status.Tags]: entries of
    another tag are skipped, and so is an entry of the wanted tag without
    items; the first item of the first other entry is the tag event. *)
Fixpoint findTagEvent (want : string) (tags : list namedTagEventList)
    : option tagEvent :=
  match tags with
  | [] => None
  | tag :: rest =>
      if negb (String.eqb (Tag tag) want) then findTagEvent want rest
      else match Items tag with
           | te :: _ => Some te
           | [] => findTagEvent want rest
           end
  end.

Section Source.
Context {W D : Type} `{!Collaborators W D}.

(** The rest of [ensureImageIsResolved] once the tag event [te] is found:
    translate its reference, open the docker source, record the image.
    [docker_NewImageSource] stands for [docker.ParseReference] followed by
    [NewImageSource]. *)
Definition resolveTagEvent (s : openshiftImageSource D) (te : tagEvent)
    (env : Env W) : option string * openshiftImageSource D * Env W :=
  let c := src_client s in
  match convertDockerImageReference c (DockerImageReference te) with
  | Err e => (Some e, s, env)
  | Ok dockerRefString =>
      match docker_NewImageSource ("//" +:+ dockerRefString)
              (requestedManifestMIMETypes s) (world env) with
      | (Err e, w) =>
          (Some e, s, {| world := w; sent := sent env; tape := tape env |})
      | (Ok d, w) =>
          (None,
           {| src_client := c;
              requestedManifestMIMETypes := requestedManifestMIMETypes s;
              src_docker := Some d;
              src_imageStreamImageName := te_Image te |},
           {| world := w; sent := sent env; tape := tape env |})
      end
  end.

(** [ensureImageIsResolved] sets up [s.docker] and
    [s.imageStreamImageName]. *)
Definition ensureImageIsResolved (s : openshiftImageSource D) (env : Env W)
    : option string * openshiftImageSource D * Env W :=
  match src_docker s with
  | Some _ => (None, s, env)
  | None =>
      let c := src_client s in
      let path := "/oapi/v1/namespaces/" +:+ namespace (ref c)
                  +:+ "/imagestreams/" +:+ stream (ref c) in
      match doRequest c "GET" path None env with
      | (Err e, env) => (Some e, s, env)
      | (Ok body, env) =>
          match json_Unmarshal_imageStream body with
          | Err e => (Some e, s, env)
          | Ok istream =>
              match findTagEvent (ref_Tag (dockerRef (ref c)))
                      (Tags (is_Status istream)) with
              | None => (Some "No matching tag found", s, env)
              | Some te => resolveTagEvent s te env
              end
          end
      end
  end.

Definition GetSignatures (s : openshiftImageSource D) (env : Env W)
    : result (list bytes) * openshiftImageSource D * Env W :=
  match ensureImageIsResolved s env with
  | (Some e, s, env) => (Err e, s, env)
  | (None, s, env) =>
      match getImage (src_client s) (src_imageStreamImageName s) env with
      | (Err e, env) => (Err e, s, env)
      | (Ok image, env) =>
          (Ok (map Content
                 (filter (λ sig, Type' sig = imageSignatureTypeAtomic)
                    (Signatures image))), s, env)
      end
  end.

End Source.

(** ** openshiftImageDestination *)

(** The handle of the docker destination opened at construction lives in
    the world; [dst_imageStreamImageName] is [""] while not yet known. *)
Record openshiftImageDestination := {
  dst_client : openshiftClient;
  dst_imageStreamImageName : string
}.

(** The destination [newImageDestination] returns for a client. *)
Definition newDestination (c : openshiftClient) : openshiftImageDestination :=
  {| dst_client := c; dst_imageStreamImageName := "" |}.

(** [%v] of an error value. *)
Definition fmt_v_error (e : option string) : string :=
  match e with Some m => m | None => "<nil>" end.

(** The inner loop of [PutSignatures]: read the random source until the
    name built from the bytes read is not in [existingSigNames].  [None]
    when the tape of reads ends first. *)
Fixpoint inventName (imageStreamImageName : string)
    (existingSigNames : gset string) (reads : list randRead)
    : option (result string * list randRead) :=
  match reads with
  | [] => None
  | r :: reads =>
      if bool_decide (rd_err r ≠ None) || negb (rd_n r =? 16) then
        Some (Err ("Error generating random signature ID: "
                   +:+ fmt_v_error (rd_err r) +:+ ", len "
                   +:+ Strings.fmt_d (rd_n r)), reads)
      else
        let signatureName :=
          imageStreamImageName +:+ "@" +:+ Strings.fmt_032x (randBytes r) in
        if bool_decide (signatureName ∈ existingSigNames)
        then inventName imageStreamImageName existingSigNames reads
        else Some (Ok signatureName, reads)
  end.

(** The signature object [PutSignatures] builds. *)
Definition newImageSignature (signatureName : string) (newSig : bytes)
    : imageSignature :=
  {| sig_typeMeta := {| Kind := "ImageSignature"; APIVersion := "v1" |};
     sig_objectMeta := {| Name := signatureName |};
     Type' := imageSignatureTypeAtomic;
     Content := newSig |}.

(** The test of the loop labelled [sigExists]: an existing signature of
    type atomic has the same content. *)
Definition sigExists (existing : list imageSignature) (newSig : bytes) : bool :=
  existsb (λ existingSig,
             String.eqb (Type' existingSig) imageSignatureTypeAtomic
             && String.eqb (Content existingSig) newSig) existing.

(** The set [existingSigNames] of [PutSignatures]. *)
Definition collectSigNames (sigs : list imageSignature) : gset string :=
  foldl (λ names sig, names ∪ {[ Name (sig_objectMeta sig) ]}) ∅ sigs.

Section Destination.
Context {W D : Type} `{!Collaborators W D}.

Definition PutManifest (d : openshiftImageDestination) (m : bytes)
    (env : Env W) : option string * openshiftImageDestination * Env W :=
  match manifest_Digest m with
  | Err e => (Some e, d, env)
  | Ok manifestDigest =>
      let d := {| dst_client := dst_client d;
                  dst_imageStreamImageName := manifestDigest |} in
      let '(err, w) := docker_PutManifest m (world env) in
      (err, d, {| world := w; sent := sent env; tape := tape env |})
  end.

(** The loop of [PutSignatures] over the new signatures. *)
Fixpoint putNewSignatures (d : openshiftImageDestination)
    (existing : list imageSignature) (existingSigNames : gset string)
    (signatures : list bytes) (env : Env W)
    : option (option string * Env W) :=
  match signatures with
  | [] => Some (None, env)
  | newSig :: signatures =>
      if sigExists existing newSig then
        putNewSignatures d existing existingSigNames signatures env
      else
        match inventName (dst_imageStreamImageName d) existingSigNames
                (tape env) with
        | None => None
        | Some (Err e, reads) =>
            Some (Some e, {| world := world env; sent := sent env;
                             tape := reads |})
        | Some (Ok signatureName, reads) =>
            let env := {| world := world env; sent := sent env;
                          tape := reads |} in
            let sig := newImageSignature signatureName newSig in
            let body := json_Marshal_imageSignature sig in
            match doRequest (dst_client d) "POST" "/oapi/v1/imagesignatures"
                    (Some body) env with
            | (Err e, env) => Some (Some e, env)
            | (Ok _, env) =>
                putNewSignatures d existing existingSigNames signatures env
            end
        end
  end.

(** [PutSignatures]; [None] when the tape of random reads ends inside the
    name loop. *)
Definition PutSignatures (d : openshiftImageDestination)
    (signatures : list bytes) (env : Env W)
    : option (option string * Env W) :=
  if String.eqb (dst_imageStreamImageName d) "" then
    Some (Some "Internal error: Unknown manifest digest, can't add signatures",
          env)
  else if (List.length signatures =? 0)%nat then
    Some (None, env)
  else
    match getImage (dst_client d) (dst_imageStreamImageName d) env with
    | (Err e, env) => Some (Some e, env)
    | (Ok image, env) =>
        let existingSigNames := collectSigNames (Signatures image) in
        putNewSignatures d (Signatures image) existingSigNames signatures env
    end.

End Destination.

(** ** Package image: the manifest-list selector *)

Module ManifestList.

Record platformSpec := {
  Architecture : string;
  OS : string;
  OSVersion : string;
  OSFeatures : list string;
  Variant : string;
  Features : list string
}.

(** Modelled from the spec: the struct [descriptor] embedded in
    [manifestDescriptor] is declared in another file of the package; the
    data model gives a manifest descriptor a digest, a media type and a
    size. *)
Record descriptor := {
  MediaType : string;
  Size : Z;
  Digest : string
}.

(** A [manifestDescriptor] references a platform-specific manifest. *)
Record manifestDescriptor := {
  md_descriptor : descriptor;
  Platform : platformSpec
}.

Record manifestList := {
  SchemaVersion : Z;
  ml_MediaType : string;
  Manifests : list manifestDescriptor
}.

(** The test of the selection loop. *)
Definition matchesPlatform (GOARCH GOOS : string) (d : manifestDescriptor)
    : bool :=
  String.eqb (Architecture (Platform d)) GOARCH
  && String.eqb (OS (Platform d)) GOOS.

(** The selection loop: [targetManifestDigest] starts as [""] and takes
    the digest of the first descriptor passing the test. *)
Fixpoint selectDigest (GOARCH GOOS : string) (ds : list manifestDescriptor)
    : string :=
  match ds with
  | [] => ""
  | d :: ds =>
      if matchesPlatform GOARCH GOOS d then Digest (md_descriptor d)
      else selectDigest GOARCH GOOS ds
  end.

Section Selector.

(** [runtime.GOARCH] and [runtime.GOOS]. *)
Variables GOARCH GOOS : string.
(** The state behind the image source, and the parsed manifests. *)
Variables (S genericManifest : Type).
Variable json_Unmarshal_manifestList : bytes → result manifestList.
(** [src.GetTargetManifest]: the manifest blob and its MIME type. *)
Variable GetTargetManifest : string → S → result (bytes * string) * S.
(** [manifestInstanceFromBlob], of another file of the package. *)
Variable manifestInstanceFromBlob :
  bytes → string → S → result genericManifest * S.

(** What the function does with the digest it settled on. *)
Definition fetchManifest (targetManifestDigest : string) (st : S)
    : result genericManifest * S :=
  match GetTargetManifest targetManifestDigest st with
  | (Err e, st) => (Err e, st)
  | (Ok (manblob, mt), st) => manifestInstanceFromBlob manblob mt st
  end.

Definition manifestSchema2FromManifestList (manblob : bytes) (st : S)
    : result genericManifest * S :=
  match json_Unmarshal_manifestList manblob with
  | Err e => (Err e, st)
  | Ok list =>
      let targetManifestDigest := selectDigest GOARCH GOOS (Manifests list) in
      if String.eqb targetManifestDigest "" then
        (Err "no supported platform found in manifest list", st)
      else fetchManifest targetManifestDigest st
  end.

End Selector.

(** A double for the image source: it returns a manifest for every
    digest asked and keeps the list of the digests asked; the manifest
    parser returns the blob and the MIME type it is given. *)
Module Double.

Definition GetTargetManifest (digest : string) (asked : list string)
    : result (bytes * string) * list string :=
  (Ok ("manifest of " +:+ digest,
       "application/vnd.docker.distribution.manifest.v2+json"),
   asked ++ [digest]).

Definition manifestInstanceFromBlob (manblob : bytes) (mt : string)
    (asked : list string) : result (bytes * string) * list string :=
  (Ok (manblob, mt), asked).

Definition entry (arch os digest : string) : manifestDescriptor := {|
  md_descriptor :=
    {| MediaType := "application/vnd.docker.distribution.manifest.v2+json";
       Size := 527; Digest := digest |};
  Platform := {| Architecture := arch; OS := os; OSVersion := "";
                 OSFeatures := []; Variant := ""; Features := [] |}
|}.

Definition listOf (entries : list manifestDescriptor) : manifestList := {|
  SchemaVersion := 2;
  ml_MediaType := "application/vnd.docker.distribution.manifest.list.v2+json";
  Manifests := entries
|}.

(** The selector on a list already decoded, running on linux/amd64. *)
Definition select (entries : list manifestDescriptor)
    : result (bytes * string) * list string :=
  manifestSchema2FromManifestList "amd64" "linux" (list string)
    (bytes * string) (λ _, Ok (listOf entries)) GetTargetManifest
    manifestInstanceFromBlob "{}" [].

End Double.

End ManifestList.

(** ** Test doubles for the collaborators *)

(** A scripted double: every collaborator answers with a canned value and
    there is no state outside the process. *)
Module Scripted.

Record Script := {
  response : result Response;
  decodedStatus : result status;
  decodedStream : result imageStream;
  decodedImage : result imageStreamImage;
  digest : result string;
  putManifestError : option string
}.

Definition collaborators (sc : Script) : Collaborators unit string := {|
  http_NewRequest_error := λ _ _, None;
  httpClient_Do := λ _ w, (response sc, w);
  http_basicAuth := λ user pass, user +:+ ":" +:+ pass;
  version_Version := "0.1.0";
  json_Unmarshal_status := λ _, decodedStatus sc;
  json_Unmarshal_imageStream := λ _, decodedStream sc;
  json_Unmarshal_imageStreamImage := λ _, decodedImage sc;
  json_Marshal_imageSignature :=
    λ sig, Name (sig_objectMeta sig) +:+ " " +:+ Content sig;
  manifest_Digest := λ _, digest sc;
  docker_NewImageSource := λ r _ w, (Ok r, w);
  docker_PutManifest := λ _ w, (putManifestError sc, w)
|}.

Definition env0 : Env unit := {| world := tt; sent := []; tape := [] |}.

Definition client : openshiftClient := {|
  ref := {| dockerRef := {| Hostname := "registry.example.com";
                            ref_Tag := "latest" |};
            namespace := "ns"; stream := "app" |};
  baseURL := {| url_base := "https://api.example.com:8443"; Path := "" |};
  bearerToken := "";
  username := "";
  password := ""
|}.

Definition noStatus : result status := Err "invalid character".

(** The request the client builds under a script. *)
Definition request (sc : Script) (c : openshiftClient) (method path : string)
    (body : option bytes) : Request :=
  match @buildRequest _ _ (collaborators sc) c method path body with
  | Ok req => req
  | Err _ => {| Method := method;
                req_URL := {| url_base := url_base (baseURL c);
                              Path := path |};
                Header := ∅; req_Body := body |}
  end.

Definition failure (message : string) : result status :=
  Ok {| Status := "Failure"; Message := message; Code := 0 |}.

Definition script (res : Response) (st : result status) : Script := {|
  response := Ok res;
  decodedStatus := st;
  decodedStream := Err "unexpected end of JSON input";
  decodedImage := Err "unexpected end of JSON input";
  digest := Err "unexpected end of JSON input";
  putManifestError := None
|}.

(** A server answering every request with an image stream of the given
    tags. *)
Definition streamScript (tags : list namedTagEventList) : Script := {|
  response := Ok {| StatusCode := 200; resp_Body := Ok "{}" |};
  decodedStatus := noStatus;
  decodedStream :=
    Ok {| is_Status := {| DockerImageRepository := "172.30.1.1:5000/ns/app";
                          Tags := tags |} |};
  decodedImage := Err "unexpected end of JSON input";
  digest := Err "unexpected end of JSON input";
  putManifestError := None
|}.

(** A registry that computes the digest and then refuses the manifest. *)
Definition refusingScript : Script := {|
  response := Ok {| StatusCode := 200; resp_Body := Ok "{}" |};
  decodedStatus := noStatus;
  decodedStream := Err "unexpected end of JSON input";
  decodedImage := Err "unexpected end of JSON input";
  digest := Ok "sha256:0a";
  putManifestError := Some "unauthorized: authentication required"
|}.

Definition source : openshiftImageSource string := {|
  src_client := client;
  requestedManifestMIMETypes := [];
  src_docker := None;
  src_imageStreamImageName := ""
|}.

Definition event (name : string) : tagEvent := {|
  DockerImageReference := "172.30.1.1:5000/ns/app@" +:+ name;
  te_Image := name
|}.

Definition other : namedTagEventList :=
  {| Tag := "v1"; Items := [event "sha256:01"] |}.
Definition latest : namedTagEventList :=
  {| Tag := "latest"; Items := [event "sha256:02"; event "sha256:03"] |}.
Definition emptied : namedTagEventList := {| Tag := "latest"; Items := [] |}.

(** Resolution of [source] against a stream of the given tags. *)
Definition resolve (tags : list namedTagEventList)
    : option string * openshiftImageSource string * Env unit :=
  @ensureImageIsResolved _ _ (collaborators (streamScript tags)) source env0.

Definition streamPath : string := "/oapi/v1/namespaces/ns/imagestreams/app".

(** What [doRequest] returns for a response of the given code and body,
    the body decoding to the given status. *)
Definition run (code : Z) (body : bytes) (st : result status) : result bytes :=
  (@doRequest _ _
     (collaborators (script {| StatusCode := code; resp_Body := Ok body |} st))
     client "GET" streamPath None env0).1.

End Scripted.

(** An in-memory API server holding the signatures of one image: a POST
    to the signature endpoint appends the posted signature, a GET of the
    image returns all of them.  Bodies use a small self-delimiting
    encoding of lists of strings in place of JSON. *)
Module Store.

(** Every byte is preceded by ["1"]; ["0"] ends the string. *)
Fixpoint encString (s : string) : string :=
  match s with
  | EmptyString => "0"
  | String c rest => String "1" (String c (encString rest))
  end.

Fixpoint encList (l : list string) : string :=
  match l with
  | [] => EmptyString
  | s :: rest => encString s +:+ encList rest
  end.

Fixpoint decList (acc : string) (s : string) : list string :=
  match s with
  | String tag rest =>
      if Ascii.eqb tag "0" then acc :: decList EmptyString rest
      else match rest with
           | String c rest => decList (acc +:+ String c EmptyString) rest
           | EmptyString => []
           end
  | EmptyString => []
  end.

(** The server's state: name and content of each stored signature. *)
Definition state : Type := list (string * string).

Fixpoint flatten (st : state) : list string :=
  match st with
  | [] => []
  | (n, c) :: rest => n :: c :: flatten rest
  end.

Fixpoint pairUp (l : list string) : state :=
  match l with
  | n :: c :: rest => (n, c) :: pairUp rest
  | _ => []
  end.

Definition stored (st : state) : list imageSignature :=
  map (λ nc, newImageSignature nc.1 nc.2) st.

Definition serve (req : Request) (st : state) : result Response * state :=
  if String.eqb (Method req) "POST" then
    match decList EmptyString (default EmptyString (req_Body req)) with
    | [n; c] => (Ok {| StatusCode := 201; resp_Body := Ok EmptyString |},
                 st ++ [(n, c)])
    | _ => (Ok {| StatusCode := 400; resp_Body := Ok "bad request" |}, st)
    end
  else
    (Ok {| StatusCode := 200; resp_Body := Ok (encList (flatten st)) |}, st).

Definition collaborators : Collaborators state string := {|
  http_NewRequest_error := λ _ _, None;
  httpClient_Do := serve;
  http_basicAuth := λ user pass, user +:+ ":" +:+ pass;
  version_Version := "0.1.0";
  json_Unmarshal_status := λ _, Err "invalid character";
  json_Unmarshal_imageStream := λ _, Err "unexpected end of JSON input";
  json_Unmarshal_imageStreamImage := λ body,
    Ok {| Image := {| img_objectMeta := {| Name := "" |};
                      img_DockerImageReference := "";
                      DockerImageMetadataVersion := "";
                      DockerImageManifest := "";
                      Signatures := stored (pairUp (decList EmptyString body))
                   |} |};
  json_Marshal_imageSignature :=
    λ sig, encList [Name (sig_objectMeta sig); Content sig];
  manifest_Digest := λ _, Ok "sha256:0a";
  docker_NewImageSource := λ r _ w, (Ok r, w);
  docker_PutManifest := λ _ w, (None, w)
|}.

Definition destination : openshiftImageDestination := {|
  dst_client := Scripted.client;
  dst_imageStreamImageName := "sha256:0a"
|}.

Definition env (st : state) (reads : list randRead) : Env state :=
  {| world := st; sent := []; tape := reads |}.

(** A read of the random source delivering sixteen times the byte [c]. *)
Definition read16 (c : ascii) : randRead :=
  {| rd_data := string_of_list_ascii (replicate 16 c); rd_err := None |}.

End Store.

(** ** The rest of the package: delegation, construction, release *)

(** What the package uses of the REST configuration. *)
Record restConfig := {
  cfg_BearerToken : string;
  cfg_Username : string;
  cfg_Password : string
}.

(** [types.BlobInfo]. *)
Record BlobInfo := {
  blob_Digest : string;
  blob_Size : Z
}.

(** The cluster configuration and the methods of the docker transport's
    sources and destinations.  The handle of the destination lives in the
    world, as for [docker_PutManifest]; the HTTP client [restClientFor]
    returns is the one behind [httpClient_Do]. *)
Class Transport (W D : Type) := {
  (* the Kubernetes configuration *)
  cmdConfig_ClientConfig : result restConfig;
  restClientFor : restConfig → result URL;
  (* types.ImageSource of the docker transport *)
  docker_GetManifest : D → W → result (bytes * string) * W;
  docker_GetTargetManifest : D → string → W → result (bytes * string) * W;
  docker_GetBlob : D → string → W → result (bytes * Z) * W;
  docker_source_Close : D → W → W;
  (* types.ImageDestination of the docker transport *)
  docker_NewImageDestination : string → W → option string * W;
  docker_PutBlob : bytes → BlobInfo → W → result BlobInfo * W;
  docker_Commit : W → option string * W;
  docker_destination_Close : W → W
}.

Definition withWorld {W : Type} (env : Env W) (w : W) : Env W :=
  {| world := w; sent := sent env; tape := tape env |}.

(** What Go does when a method is called through a nil interface. *)
Definition nilDereference : string :=
  "runtime error: invalid memory address or nil pointer dereference".

Section Construction.
Context {W D : Type} `{!Collaborators W D} `{!Transport W D}.

(** [newOpenshiftClient] creates a client for the specified reference. *)
Definition newOpenshiftClient (r : openshiftReference)
    : result openshiftClient :=
  match cmdConfig_ClientConfig with
  | Err e => Err e
  | Ok restConfig =>
      match restClientFor restConfig with
      | Err e => Err e
      | Ok baseURL =>
          Ok {| ref := r;
                baseURL := baseURL;
                bearerToken := cfg_BearerToken restConfig;
                username := cfg_Username restConfig;
                password := cfg_Password restConfig |}
      end
  end.

(** [newImageSource] creates a source for the specified reference. *)
Definition newImageSource (r : openshiftReference)
    (requestedManifestMIMETypes : list string)
    : result (openshiftImageSource D) :=
  match newOpenshiftClient r with
  | Err e => Err e
  | Ok client =>
      Ok {| src_client := client;
            requestedManifestMIMETypes := requestedManifestMIMETypes;
            src_docker := None;
            src_imageStreamImageName := "" |}
  end.

(** [Reference] of a source: the reference as specified by the user. *)
Definition source_Reference (s : openshiftImageSource D)
    : openshiftReference :=
  ref (src_client s).

(** [Close] of a source releases the docker source, if any. *)
Definition source_Close (s : openshiftImageSource D) (env : Env W)
    : openshiftImageSource D * Env W :=
  match src_docker s with
  | Some d =>
      ({| src_client := src_client s;
          requestedManifestMIMETypes := requestedManifestMIMETypes s;
          src_docker := None;
          src_imageStreamImageName := src_imageStreamImageName s |},
       withWorld env (docker_source_Close d (world env)))
  | None => (s, env)
  end.

(** A call of a method of [s.docker] after [ensureImageIsResolved]. *)
Definition viaDocker {A : Type} (call : D → W → result A * W)
    (s : openshiftImageSource D) (env : Env W)
    : result A * openshiftImageSource D * Env W :=
  match ensureImageIsResolved s env with
  | (Some e, s, env) => (Err e, s, env)
  | (None, s, env) =>
      match src_docker s with
      | Some d =>
          let '(r, w) := call d (world env) in (r, s, withWorld env w)
      | None => (Err nilDereference, s, env)
      end
  end.

Definition GetTargetManifest (s : openshiftImageSource D) (digest : string)
    (env : Env W)
    : result (bytes * string) * openshiftImageSource D * Env W :=
  viaDocker (λ d, docker_GetTargetManifest d digest) s env.

Definition GetManifest (s : openshiftImageSource D) (env : Env W)
    : result (bytes * string) * openshiftImageSource D * Env W :=
  viaDocker docker_GetManifest s env.

(** [GetBlob] returns the specified blob and its size. *)
Definition GetBlob (s : openshiftImageSource D) (digest : string)
    (env : Env W)
    : result (bytes * Z) * openshiftImageSource D * Env W :=
  viaDocker (λ d, docker_GetBlob d digest) s env.

(** [newImageDestination] creates a destination for the specified
    reference; [docker_NewImageDestination] stands for
    [docker.ParseReference] followed by [NewImageDestination]. *)
Definition newImageDestination (r : openshiftReference) (env : Env W)
    : result openshiftImageDestination * Env W :=
  match newOpenshiftClient r with
  | Err e => (Err e, env)
  | Ok client =>
      let dockerRefString :=
        "//" +:+ Hostname (dockerRef (ref client)) +:+ "/"
        +:+ namespace (ref client) +:+ "/" +:+ stream (ref client)
        +:+ ":" +:+ ref_Tag (dockerRef (ref client)) in
      match docker_NewImageDestination dockerRefString (world env) with
      | (Some e, w) => (Err e, withWorld env w)
      | (None, w) =>
          (Ok {| dst_client := client; dst_imageStreamImageName := "" |},
           withWorld env w)
      end
  end.

Definition destination_Reference (d : openshiftImageDestination)
    : openshiftReference :=
  ref (dst_client d).

Definition destination_Close (d : openshiftImageDestination) (env : Env W)
    : Env W :=
  withWorld env (docker_destination_Close (world env)).

Definition PutBlob (d : openshiftImageDestination) (stream : bytes)
    (inputInfo : BlobInfo) (env : Env W) : result BlobInfo * Env W :=
  let '(r, w) := docker_PutBlob stream inputInfo (world env) in
  (r, withWorld env w).

Definition Commit (d : openshiftImageDestination) (env : Env W)
    : option string * Env W :=
  let '(err, w) := docker_Commit (world env) in (err, withWorld env w).

End Construction.

Definition DockerV2Schema1SignedMediaType : string :=
  "application/vnd.docker.distribution.manifest.v1+prettyjws".
Definition DockerV2Schema1MediaType : string :=
  "application/vnd.docker.distribution.manifest.v1+json".

Definition SupportedManifestMIMETypes (d : openshiftImageDestination)
    : list string :=
  [DockerV2Schema1SignedMediaType; DockerV2Schema1MediaType].

Definition SupportsSignatures (d : openshiftImageDestination)
    : option string := None.

Definition ShouldCompressLayers (d : openshiftImageDestination) : bool := true.

(** ** Notions of the further statements *)

(** [strings.Join] for a one-byte separator. *)
Fixpoint joinWith (sep : ascii) (parts : list string) : string :=
  match parts with
  | [] => EmptyString
  | [s] => s
  | s :: rest => s +:+ String sep (joinWith sep rest)
  end.

(** A read of the random source that [PutSignatures] accepts as sixteen
    random bytes. *)
Definition goodRead (r : randRead) : Prop :=
  rd_err r = None ∧ rd_n r = 16.

(** The path of the image object of a client's stream. *)
Definition imagePath (c : openshiftClient) (name : string) : string :=
  "/oapi/v1/namespaces/" +:+ namespace (ref c) +:+ "/imagestreamimages/"
  +:+ stream (ref c) +:+ "@" +:+ name.

(** The requests of a [getImage]. *)
Definition imageRequest (c : openshiftClient) (name : string)
    (req : Request) : Prop :=
  Method req = "GET"
  ∧ req_URL req = {| url_base := url_base (baseURL c);
                     Path := imagePath c name |}
  ∧ req_Body req = None
  ∧ Header req !! "Content-Type" = None.

Definition streamPathOf (c : openshiftClient) : string :=
  "/oapi/v1/namespaces/" +:+ namespace (ref c) +:+ "/imagestreams/"
  +:+ stream (ref c).

(** The name [PutSignatures] builds from a read of the random source. *)
Definition signatureNameFor (imageStreamImageName : string) (r : randRead)
    : string :=
  imageStreamImageName +:+ "@" +:+ Strings.fmt_032x (randBytes r).

(** The error of [PutSignatures] for a read it does not accept. *)
Definition randomError (r : randRead) : string :=
  "Error generating random signature ID: " +:+ fmt_v_error (rd_err r)
  +:+ ", len " +:+ Strings.fmt_d (rd_n r).

(** The value of a hexadecimal digit, and the byte of two digits. *)
Definition unhexDigit (c : ascii) : N :=
  let n := N_of_ascii c in
  (if n <? 58 then n - 48 else n - 87)%N.

Fixpoint unhex (s : string) : bytes :=
  match s with
  | String hi (String lo rest) =>
      String (ascii_of_N (16 * unhexDigit hi + unhexDigit lo)) (unhex rest)
  | _ => EmptyString
  end.

(** A request of [PutSignatures] that creates a signature: a POST to the
    signature endpoint whose body is the signature object for one of the
    candidates [signatures], one that no signature of [existing] carries,
    under a name that no signature of [existing] has and that is the
    image name, ["@"] and 32 lowercase hexadecimal digits. *)
Definition signaturePost {W D : Type} `{!Collaborators W D}
    (d : openshiftImageDestination) (signatures : list bytes)
    (existing : list imageSignature) (req : Request) : Prop :=
  Method req = "POST"
  ∧ req_URL req = {| url_base := url_base (baseURL (dst_client d));
                     Path := "/oapi/v1/imagesignatures" |}
  ∧ ∃ name content,
      req_Body req
      = Some (json_Marshal_imageSignature (newImageSignature name content))
      ∧ content ∈ signatures
      ∧ sigExists existing content = false
      ∧ (∀ sig, sig ∈ existing → Name (sig_objectMeta sig) ≠ name)
      ∧ ∃ digits, name = dst_imageStreamImageName d +:+ "@" +:+ digits
          ∧ String.length digits = 32%nat
          ∧ Forall (λ c, Strings.isLowerHex c = true) (Strings.chars digits).

(** The request of a resolution. *)
Definition streamRequest (c : openshiftClient) (req : Request) : Prop :=
  Method req = "GET"
  ∧ req_URL req = {| url_base := url_base (baseURL c);
                     Path := streamPathOf c |}
  ∧ req_Body req = None.

(** What a descriptor of a manifest list contributes to the selection. *)
Definition selectionKey (d : ManifestList.manifestDescriptor)
    : string * string * string :=
  (ManifestList.Architecture (ManifestList.Platform d),
   ManifestList.OS (ManifestList.Platform d),
   ManifestList.Digest (ManifestList.md_descriptor d)).

(** A double for the configuration and the docker transport, over the
    world and handles of the scripted doubles: sources answer with a
    manifest named after their reference, destinations accept all. *)
Module Registry.

Definition config : restConfig :=
  {| cfg_BearerToken := "t0ken"; cfg_Username := "admin";
     cfg_Password := "secret" |}.

Definition transport {W : Type} : Transport W string := {|
  cmdConfig_ClientConfig := Ok config;
  restClientFor := λ _,
    Ok {| url_base := "https://api.example.com:8443"; Path := "/prefix" |};
  docker_GetManifest := λ d w,
    (Ok ("manifest of " +:+ d, DockerV2Schema1MediaType), w);
  docker_GetTargetManifest := λ d digest w,
    (Ok ("manifest " +:+ digest +:+ " of " +:+ d, DockerV2Schema1MediaType),
     w);
  docker_GetBlob := λ d digest w, (Ok ("blob " +:+ digest, 11), w);
  docker_source_Close := λ _ w, w;
  docker_NewImageDestination := λ _ w, (None, w);
  docker_PutBlob := λ _ info w, (Ok info, w);
  docker_Commit := λ w, (None, w);
  docker_destination_Close := λ w, w
|}.

Definition reference : openshiftReference := ref Scripted.client.

(** A source already resolved. *)
Definition resolved : openshiftImageSource string := {|
  src_client := Scripted.client;
  requestedManifestMIMETypes := [];
  src_docker := Some "//registry.example.com/ns/app@sha256:0a";
  src_imageStreamImageName := "sha256:0a"
|}.

(** The client [newOpenshiftClient] makes from [config]. *)
Definition client0 : openshiftClient := {|
  ref := reference;
  baseURL := {| url_base := "https://api.example.com:8443";
                Path := "/prefix" |};
  bearerToken := "t0ken";
  username := "admin";
  password := "secret"
|}.

(** A script whose responses are empty successes. *)
Definition quiet : Scripted.Script :=
  Scripted.script {| StatusCode := 204; resp_Body := Ok "" |}
    Scripted.noStatus.

(** A script answering code 101 with a body that is no status. *)
Definition upgrade : Scripted.Script :=
  Scripted.script {| StatusCode := 101; resp_Body := Ok "upgrade" |}
    Scripted.noStatus.

(** The resolution of the scripted source against the tags [v1] and
    [latest]. *)
Definition resolution
    : option string * openshiftImageSource string * Env unit :=
  Scripted.resolve [Scripted.other; Scripted.latest].

(** A run of [PutSignatures] against the in-memory server holding one
    signature, and what it returns. *)
Definition before : Env Store.state :=
  Store.env [("sha256:0a@old", "sig-0")]
    [Store.read16 "a"; Store.read16 "b"].

Definition candidates : list bytes := ["sig-0"; "sig-1"; "sig-2"].

Definition outcome : option string * Env Store.state :=
  default (None, before)
    (@PutSignatures _ _ Store.collaborators Store.destination candidates
       before).

End Registry.

(** ** Auxiliary notions of the statements *)

(** An entry the loop passes over: another tag, or no items. *)
Definition skipped (want : string) (tag : namedTagEventList) : Prop :=
  Tag tag ≠ want ∨ Items tag = [].

(** The byte [0x11], sixteen of which print as thirty-two ones. *)
Definition byte11 : ascii := ascii_of_nat 17.

(** * Properties *)

(** ** Strings *)

Lemma cut_fresh sep host rest :
  sep ∉ Strings.chars host →
  Strings.cut sep (host +:+ String sep rest) = Some (host, rest).
Proof.
  induction host as [|c host IH]; simpl; intros Hnot.
  - by rewrite Ascii.eqb_refl.
  - apply not_elem_of_cons in Hnot as [Hne Hnot].
    destruct (Ascii.eqb_spec c sep) as [->|_]; [done|].
    by rewrite IH.
Qed.

Lemma cut_absent sep s :
  sep ∉ Strings.chars s → Strings.cut sep s = None.
Proof.
  induction s as [|c s IH]; simpl; intros Hnot; [done|].
  apply not_elem_of_cons in Hnot as [Hne Hnot].
  destruct (Ascii.eqb_spec c sep) as [->|_]; [done|].
  by rewrite IH.
Qed.

Lemma cut_present sep s :
  sep ∈ Strings.chars s →
  ∃ host rest, s = host +:+ String sep rest ∧ sep ∉ Strings.chars host.
Proof.
  induction s as [|c s IH]; simpl; intros Hin.
  - by apply elem_of_nil in Hin.
  - destruct (decide (c = sep)) as [->|Hne].
    + exists EmptyString, s. split; [done|]. simpl. apply not_elem_of_nil.
    + apply elem_of_cons in Hin as [Heq|Hin]; [congruence|].
      destruct (IH Hin) as (host & rest & -> & Hnot).
      exists (String c host), rest. split; [done|].
      simpl. apply not_elem_of_cons. split; [congruence|done].
Qed.

(** ** The reference translator *)

Lemma convert_with_separator c host rest :
  ("/"%char) ∉ Strings.chars host →
  convertDockerImageReference c (host +:+ "/" +:+ rest)
  = Ok (Hostname (dockerRef (ref c)) +:+ "/" +:+ rest).
Proof.
  intros Hnot. unfold convertDockerImageReference. simpl Strings.SplitN.
  change ("/" +:+ rest) with (String "/" rest).
  rewrite (cut_fresh _ _ _ Hnot). reflexivity.
Qed.

(** C6. [convertDockerImageReference] is a function of the client's
    reference and the input string alone.  An input [host/rest] whose
    [host] has no ['/'] gives the hostname of the user's reference, ["/"]
    and [rest]; every input with a ['/'] is of that form; an input
    without ['/'] fails with the missing-separator error. *)
Theorem convertDockerImageReference_spec (c : openshiftClient) :
  (∀ host rest, ("/"%char) ∉ Strings.chars host →
     convertDockerImageReference c (host +:+ "/" +:+ rest)
     = Ok (Hostname (dockerRef (ref c)) +:+ "/" +:+ rest))
  ∧ (∀ r, ("/"%char) ∈ Strings.chars r →
       ∃ host rest, r = host +:+ "/" +:+ rest
         ∧ (("/"%char) ∉ Strings.chars host)
         ∧ convertDockerImageReference c r
           = Ok (Hostname (dockerRef (ref c)) +:+ "/" +:+ rest))
  ∧ (∀ r, ("/"%char) ∉ Strings.chars r →
       convertDockerImageReference c r
       = Err ("Invalid format of docker reference " +:+ r
              +:+ ": missing '/'")).
Proof.
  split; [|split].
  - intros host rest. apply convert_with_separator.
  - intros r Hin. destruct (cut_present _ _ Hin) as (host & rest & -> & Hnot).
    exists host, rest. split; [done|]. split; [done|].
    by apply convert_with_separator.
  - intros r Hnot. unfold convertDockerImageReference. simpl Strings.SplitN.
    by rewrite (cut_absent _ _ Hnot).
Qed.

Lemma convertDockerImageReference_witness :
  (("/"%char) ∉ Strings.chars "172.30.1.1:5000")
  ∧ convertDockerImageReference Scripted.client
      "172.30.1.1:5000/ns/app@sha256:0a"
    = Ok "registry.example.com/ns/app@sha256:0a"
  ∧ (("/"%char) ∉ Strings.chars "busybox")
  ∧ convertDockerImageReference Scripted.client "busybox"
    = Err "Invalid format of docker reference busybox: missing '/'".
Proof.
  assert (H1 : ("/"%char) ∉ Strings.chars "172.30.1.1:5000").
  { apply (bool_decide_unpack _). vm_compute. exact I. }
  assert (H2 : ("/"%char) ∉ Strings.chars "busybox").
  { apply (bool_decide_unpack _). vm_compute. exact I. }
  split; [exact H1|]. split.
  - exact (proj1 (convertDockerImageReference_spec Scripted.client)
             "172.30.1.1:5000" "ns/app@sha256:0a" H1).
  - split; [exact H2|].
    exact (proj2 (proj2 (convertDockerImageReference_spec Scripted.client))
             "busybox" H2).
Defined.

(** ** The transport client *)

Lemma length_zero_iff (s : string) :
  (String.length s =? 0)%nat = true ↔ s = "".
Proof. destruct s; simpl; split; intros; congruence. Qed.

Section ClientProperties.
Context {W D : Type} `{!Collaborators W D}.

Lemma setCredentials_Authorization (c : openshiftClient) (req : Request) :
  Header req !! "Authorization" = None →
  Header (setCredentials c req) !! "Authorization"
  = if decide (bearerToken c ≠ "")
    then Some ["Bearer " +:+ bearerToken c]
    else if decide (username c ≠ "")
         then Some ["Basic " +:+ http_basicAuth (username c) (password c)]
         else None.
Proof.
  intros Hnone. unfold setCredentials.
  destruct (String.length (bearerToken c) =? 0)%nat eqn:Htok; simpl.
  - apply length_zero_iff in Htok. rewrite decide_False by tauto.
    destruct (String.length (username c) =? 0)%nat eqn:Huser; simpl.
    + apply length_zero_iff in Huser. by rewrite decide_False by tauto.
    + rewrite decide_True; [apply lookup_insert_eq|].
      intros Heq. apply length_zero_iff in Heq. congruence.
  - rewrite decide_True; [apply lookup_insert_eq|].
    intros Heq. apply length_zero_iff in Heq. congruence.
Qed.

Lemma buildRequest_Authorization (c : openshiftClient) (method path : string)
    (requestBody : option bytes) (req : Request) :
  buildRequest c method path requestBody = Ok req →
  Header req !! "Authorization"
  = if decide (bearerToken c ≠ "")
    then Some ["Bearer " +:+ bearerToken c]
    else if decide (username c ≠ "")
         then Some ["Basic " +:+ http_basicAuth (username c) (password c)]
         else None.
Proof.
  unfold buildRequest, http_NewRequest.
  destruct (http_NewRequest_error _ _); [done|].
  intros [= <-].
  rewrite <- (setCredentials_Authorization c
    {| Method := method;
       req_URL := {| url_base := url_base (baseURL c); Path := path |};
       Header := ∅; req_Body := requestBody |}) by apply lookup_empty.
  destruct requestBody; simpl;
    repeat (rewrite lookup_insert_ne by done); done.
Qed.

(** A request is built whenever [http.NewRequest] accepts the method and
    the URL. *)
Lemma buildRequest_Ok (c : openshiftClient) (method path : string)
    (requestBody : option bytes) :
  http_NewRequest_error method
    {| url_base := url_base (baseURL c); Path := path |} = None →
  ∃ req, buildRequest c method path requestBody = Ok req.
Proof.
  intros Hnew. unfold buildRequest, http_NewRequest. rewrite Hnew. eauto.
Qed.

(** The request built is the request sent, whatever comes back. *)
Lemma doRequest_sends (c : openshiftClient) (method path : string)
    (requestBody : option bytes) (env : Env W) (req : Request) :
  buildRequest c method path requestBody = Ok req →
  sent (doRequest c method path requestBody env).2 = sent env ++ [req].
Proof.
  intros Hbuild. unfold doRequest. rewrite Hbuild.
  destruct (httpClient_Do req (world env)) as [[res|e] w]; [|done].
  by destruct (resp_Body res).
Qed.

(** C9. Whenever [http.NewRequest] accepts the method and the URL,
    [doRequest] sends one request, and its [Authorization] header holds
    one value: the bearer token when it is not empty, else the basic
    credentials when the user name is not empty; else the header is
    absent. *)
Theorem doRequest_credentials (c : openshiftClient) (method path : string)
    (requestBody : option bytes) (env : Env W) :
  http_NewRequest_error method
    {| url_base := url_base (baseURL c); Path := path |} = None →
  ∃ req,
    sent (doRequest c method path requestBody env).2 = sent env ++ [req]
    ∧ Header req !! "Authorization"
      = if decide (bearerToken c ≠ "")
        then Some ["Bearer " +:+ bearerToken c]
        else if decide (username c ≠ "")
             then Some ["Basic "
                        +:+ http_basicAuth (username c) (password c)]
             else None.
Proof.
  intros Hnew.
  destruct (buildRequest_Ok c method path requestBody Hnew) as [req Hbuild].
  exists req. split.
  - by apply doRequest_sends.
  - by eapply buildRequest_Authorization.
Qed.

Example doRequest_bearer_before_basic :
  let c := {| ref := ref Scripted.client; baseURL := baseURL Scripted.client;
              bearerToken := "t0ken"; username := "admin";
              password := "secret" |} in
  Header (Scripted.request (Scripted.script
            {| StatusCode := 200; resp_Body := Ok "{}" |} Scripted.noStatus)
            c "GET" "/oapi" None) !! "Authorization"
  = Some ["Bearer t0ken"].
Proof. vm_compute. reflexivity. Qed.

Lemma classify_statusInvalid (code : Z) (body : bytes) :
  (∀ st, json_Unmarshal_status body = Ok st → Status st = "") →
  classify code body
  = if code =? StatusSwitchingProtocols then Ok body
    else if (StatusOK <=? code) && (code <=? StatusPartialContent)
         then Ok body
         else Err ("HTTP error: status code: " +:+ Strings.fmt_d code
                   +:+ ", body: " +:+ body).
Proof.
  intros Hinvalid. unfold classify.
  destruct (json_Unmarshal_status body) as [st|e]; simpl; [|done].
  by rewrite (Hinvalid st eq_refl).
Qed.

Lemma classify_statusValid (code : Z) (body : bytes) (st : status) :
  json_Unmarshal_status body = Ok st → Status st ≠ "" →
  classify code body
  = if code =? StatusSwitchingProtocols then
      if String.eqb (Status st) "Success" then Ok body
      else Err (Message st)
    else if (StatusOK <=? code) && (code <=? StatusPartialContent)
         then Ok body
         else Err (Message st).
Proof.
  intros Hdec Hne. unfold classify. rewrite Hdec.
  assert ((0 <? String.length (Status st))%nat = true) as ->.
  { destruct (Status st); [done|]. reflexivity. }
  simpl. by destruct (String.eqb (Status st) "Success").
Qed.

(** What [doRequest] returns once the response and its body are in. *)
Lemma doRequest_response (c : openshiftClient) (method path : string)
    (requestBody : option bytes) (env : Env W) (req : Request)
    (res : Response) (w : W) (body : bytes) :
  buildRequest c method path requestBody = Ok req →
  httpClient_Do req (world env) = (Ok res, w) →
  resp_Body res = Ok body →
  doRequest c method path requestBody env
  = (classify (StatusCode res) body,
     {| world := w; sent := sent env ++ [req]; tape := tape env |}).
Proof.
  intros Hbuild Hdo Hbody. unfold doRequest.
  by rewrite Hbuild, Hdo, Hbody.
Qed.

(** C3. The classification of a response by [doRequest].  A decoded
    status envelope is one that [json.Unmarshal] accepts and whose
    [Status] is not empty. *)
Theorem doRequest_classification (c : openshiftClient) (method path : string)
    (requestBody : option bytes) (env : Env W) (req : Request)
    (res : Response) (w : W) (body : bytes) :
  buildRequest c method path requestBody = Ok req →
  httpClient_Do req (world env) = (Ok res, w) →
  resp_Body res = Ok body →
  let code := StatusCode res in
  let out := (doRequest c method path requestBody env).1 in
  (code = 101 →
     ∀ st, json_Unmarshal_status body = Ok st → Status st ≠ "" →
           Status st ≠ "Success" → out = Err (Message st))
  ∧ (200 ≤ code ≤ 206 → out = Ok body)
  ∧ (code ≠ 101 → ¬ (200 ≤ code ≤ 206) →
       (∀ st, json_Unmarshal_status body = Ok st → Status st ≠ "" →
              out = Err (Message st))
       ∧ ((∀ st, json_Unmarshal_status body = Ok st → Status st = "") →
            out = Err ("HTTP error: status code: " +:+ Strings.fmt_d code
                       +:+ ", body: " +:+ body))).
Proof.
  intros Hbuild Hdo Hbody code out. subst out.
  rewrite (doRequest_response _ _ _ _ _ _ _ _ _ Hbuild Hdo Hbody). simpl.
  fold code. unfold StatusSwitchingProtocols, StatusOK, StatusPartialContent.
  split; [|split].
  - intros -> st Hdec Hne Hfail.
    rewrite (classify_statusValid _ _ _ Hdec Hne). simpl.
    destruct (String.eqb_spec (Status st) "Success"); [done|done].
  - intros [Hlo Hhi].
    assert (classify code body = Ok body) as ->; [|done].
    unfold classify, StatusSwitchingProtocols, StatusOK, StatusPartialContent.
    destruct (Z.eqb_spec code 101) as [Heq|_]; [lia|].
    assert ((200 <=? code) && (code <=? 206) = true) as ->; [|done].
    apply andb_true_iff. split; by apply Z.leb_le.
  - intros Hne Hout.
    assert ((code =? 101) = false) as Hc1 by by apply Z.eqb_neq.
    assert ((200 <=? code) && (code <=? 206) = false) as Hc2.
    { apply andb_false_iff. rewrite !Z.leb_gt. lia. }
    split.
    + intros st Hdec Hvalid.
      rewrite (classify_statusValid _ _ _ Hdec Hvalid).
      unfold StatusSwitchingProtocols, StatusOK, StatusPartialContent.
      by rewrite Hc1, Hc2.
    + intros Hinvalid. rewrite (classify_statusInvalid _ _ Hinvalid).
      unfold StatusSwitchingProtocols, StatusOK, StatusPartialContent.
      by rewrite Hc1, Hc2.
Qed.

End ClientProperties.

Lemma doRequest_credentials_witness :
  let send := λ token user pass,
    sent (@doRequest _ _ (Scripted.collaborators Registry.quiet)
            {| ref := ref Scripted.client;
               baseURL := baseURL Scripted.client;
               bearerToken := token; username := user; password := pass |}
            "GET" Scripted.streamPath None Scripted.env0).2 in
  (∃ req, send "t0ken" "admin" "secret" = [req]
          ∧ Header req !! "Authorization" = Some ["Bearer t0ken"])
  ∧ (∃ req, send "" "admin" "secret" = [req]
            ∧ Header req !! "Authorization" = Some ["Basic admin:secret"])
  ∧ (∃ req, send "" "" "secret" = [req]
            ∧ Header req !! "Authorization" = None).
Proof.
  pose (credentials := λ token user pass,
    @doRequest_credentials _ _ (Scripted.collaborators Registry.quiet)
      {| ref := ref Scripted.client; baseURL := baseURL Scripted.client;
         bearerToken := token; username := user; password := pass |}
      "GET" Scripted.streamPath None Scripted.env0 eq_refl).
  split; [|split].
  - exact (credentials "t0ken" "admin" "secret").
  - exact (credentials "" "admin" "secret").
  - exact (credentials "" "" "secret").
Defined.

Lemma doRequest_classification_witness :
  Scripted.run 101 "{status: Failure, message: x}" (Scripted.failure "x")
  = Err "x"
  ∧ Scripted.run 204 "" Scripted.noStatus = Ok ""
  ∧ Scripted.run 404 "{status: Failure, message: not found}"
      (Scripted.failure "not found")
    = Err "not found"
  ∧ Scripted.run 404 "page not found" Scripted.noStatus
    = Err "HTTP error: status code: 404, body: page not found".
Proof.
  pose (classification := λ code body st,
    @doRequest_classification _ _
      (Scripted.collaborators
         (Scripted.script {| StatusCode := code; resp_Body := Ok body |} st))
      Scripted.client "GET" Scripted.streamPath None Scripted.env0
      (Scripted.request
         (Scripted.script {| StatusCode := code; resp_Body := Ok body |} st)
         Scripted.client "GET" Scripted.streamPath None)
      {| StatusCode := code; resp_Body := Ok body |} tt body
      eq_refl eq_refl eq_refl).
  split; [|split; [|split]].
  - refine (proj1 (classification 101 _ (Scripted.failure "x")) eq_refl
              _ eq_refl _ _); simpl; congruence.
  - refine (proj1 (proj2 (classification 204 "" Scripted.noStatus)) _).
    simpl. lia.
  - refine (proj1 (proj2 (proj2 (classification 404 _
              (Scripted.failure "not found"))) _ _) _ eq_refl _);
      simpl; [lia | lia | congruence].
  - refine (proj2 (proj2 (proj2 (classification 404 "page not found"
              Scripted.noStatus)) _ _) _); simpl; [lia | lia |].
    intros st Hst. discriminate Hst.
Defined.

(** ** The image source resolver *)

Lemma findTagEvent_skip want tag rest :
  skipped want tag → findTagEvent want (tag :: rest) = findTagEvent want rest.
Proof.
  intros [Hne|Hempty]; simpl.
  - destruct (String.eqb_spec (Tag tag) want); [done|done].
  - rewrite Hempty. by destruct (negb _).
Qed.

Lemma findTagEvent_first want pre tag te more post :
  Forall (skipped want) pre → Tag tag = want → Items tag = te :: more →
  findTagEvent want (pre ++ tag :: post) = Some te.
Proof.
  intros Hpre Htag Hitems. induction Hpre as [|p pre Hp _ IH].
  - simpl. rewrite Htag, String.eqb_refl, Hitems. reflexivity.
  - change ((p :: pre) ++ tag :: post) with (p :: (pre ++ tag :: post)).
    by rewrite findTagEvent_skip.
Qed.

Lemma findTagEvent_none want tags :
  Forall (skipped want) tags → findTagEvent want tags = None.
Proof.
  induction 1 as [|p tags Hp _ IH]; [done|]. by rewrite findTagEvent_skip.
Qed.

(** Entries of other tags play no part in the choice. *)
Lemma findTagEvent_filter want tags :
  findTagEvent want tags
  = findTagEvent want (filter (λ tag, Tag tag = want) tags).
Proof.
  induction tags as [|p tags IH]; [done|].
  rewrite filter_cons. destruct (decide (Tag p = want)) as [Heq|Hne].
  - simpl. rewrite Heq, String.eqb_refl. simpl. by rewrite IH.
  - rewrite findTagEvent_skip by (by left). done.
Qed.

(** An entry of the wanted tag without items does not end the scan: a
    later entry of the same tag is still used. *)
Example findTagEvent_after_empty_entry :
  findTagEvent "latest"
    [{| Tag := "latest"; Items := [] |};
     {| Tag := "latest"; Items := [Scripted.event "sha256:02"] |}]
  = Some (Scripted.event "sha256:02").
Proof. reflexivity. Qed.

Section SourceProperties.
Context {W D : Type} `{!Collaborators W D}.

Lemma resolveTagEvent_records (s s' : openshiftImageSource D) (te : tagEvent)
    (env env' : Env W) :
  resolveTagEvent s te env = (None, s', env') →
  src_imageStreamImageName s' = te_Image te ∧ is_Some (src_docker s').
Proof.
  unfold resolveTagEvent.
  destruct (convertDockerImageReference _ _); [|intros [=]].
  destruct (docker_NewImageSource _ _ _) as [[d|e] w]; intros [=]; subst.
  simpl. eauto.
Qed.

(** C2. Tag resolution on a source not yet resolved, once the image
    stream is fetched and decoded.  With the entries before [tag] all of
    other tags (or without items), [tag] of the reference's tag and [te]
    the first of its items, resolution goes on with [te] and, when it
    succeeds, records the image of [te]; entries of other tags never
    change the choice.  When every entry of the reference's tag has no
    items, or no entry has that tag, resolution fails with
    ["No matching tag found"] and leaves the source as it was. *)
Theorem ensureImageIsResolved_tag (s : openshiftImageSource D)
    (env env1 : Env W) (body : bytes) (istream : imageStream) :
  let c := src_client s in
  let want := ref_Tag (dockerRef (ref c)) in
  let tags := Tags (is_Status istream) in
  src_docker s = None →
  doRequest c "GET" ("/oapi/v1/namespaces/" +:+ namespace (ref c)
                     +:+ "/imagestreams/" +:+ stream (ref c)) None env
  = (Ok body, env1) →
  json_Unmarshal_imageStream body = Ok istream →
  (∀ pre tag te more post,
     tags = pre ++ tag :: post →
     Forall (skipped want) pre → Tag tag = want → Items tag = te :: more →
     findTagEvent want tags = Some te
     ∧ ensureImageIsResolved s env = resolveTagEvent s te env1
     ∧ ∀ s' env', ensureImageIsResolved s env = (None, s', env') →
                  src_imageStreamImageName s' = te_Image te
                  ∧ is_Some (src_docker s'))
  ∧ findTagEvent want tags
    = findTagEvent want (filter (λ tag, Tag tag = want) tags)
  ∧ ((∀ tag, tag ∈ tags → Tag tag = want → Items tag = []) →
     ensureImageIsResolved s env = (Some "No matching tag found", s, env1)).
Proof.
  intros c want tags Hunresolved Hget Hdecode.
  assert (Hunfold : ensureImageIsResolved s env
                    = match findTagEvent want tags with
                      | None => (Some "No matching tag found", s, env1)
                      | Some te => resolveTagEvent s te env1
                      end).
  { unfold ensureImageIsResolved. rewrite Hunresolved.
    fold c. rewrite Hget, Hdecode. reflexivity. }
  split; [|split].
  - intros pre tag te more post Htags Hpre Htag Hitems.
    assert (Hfound : findTagEvent want tags = Some te).
    { rewrite Htags. by eapply findTagEvent_first. }
    rewrite Hunfold, Hfound. split; [done|]. split; [done|].
    intros s' env'. apply resolveTagEvent_records.
  - apply findTagEvent_filter.
  - intros Hempty. rewrite Hunfold, findTagEvent_none; [done|].
    apply Forall_forall. intros tag Hin.
    destruct (decide (Tag tag = want)) as [Heq|Hne].
    + right. by apply Hempty.
    + by left.
Qed.

End SourceProperties.

Lemma ensureImageIsResolved_tag_witness :
  (∀ s' env',
     Scripted.resolve [Scripted.other; Scripted.latest] = (None, s', env') →
     src_imageStreamImageName s' = "sha256:02")
  ∧ (Scripted.resolve [Scripted.other; Scripted.latest]).1.1 = None
  ∧ (Scripted.resolve [Scripted.other; Scripted.emptied]).1.1
    = Some "No matching tag found".
Proof.
  pose (resolution := λ tags,
    @ensureImageIsResolved_tag _ _
      (Scripted.collaborators (Scripted.streamScript tags))
      Scripted.source Scripted.env0
      (@doRequest _ _ (Scripted.collaborators (Scripted.streamScript tags))
         Scripted.client "GET" Scripted.streamPath None Scripted.env0).2
      "{}"
      {| is_Status := {| DockerImageRepository := "172.30.1.1:5000/ns/app";
                         Tags := tags |} |}
      eq_refl eq_refl eq_refl).
  split; [|split].
  - intros s' env' Hres.
    refine (proj1 (proj2 (proj2 (proj1
              (resolution [Scripted.other; Scripted.latest])
              [Scripted.other] Scripted.latest (Scripted.event "sha256:02")
              [Scripted.event "sha256:03"] [] eq_refl _ eq_refl eq_refl))
              s' env' Hres)).
    constructor; [left; discriminate | constructor].
  - reflexivity.
  - refine (f_equal (λ r, r.1.1)
              (proj2 (proj2 (resolution [Scripted.other; Scripted.emptied]))
                 _)).
    intros tag Hin Htag. simpl in Hin.
    apply elem_of_cons in Hin as [->|Hin]; [discriminate Htag|].
    apply elem_of_cons in Hin as [->|Hin]; [done|].
    by apply elem_of_nil in Hin.
Defined.


(** ** The image destination *)

Section DestinationProperties.
Context {W D : Type} `{!Collaborators W D}.

(** C7. A destination whose content identifier is still [""] (as
    [newImageDestination] leaves it, and as it stays until [PutManifest]
    has computed a digest) makes [PutSignatures] fail with the
    unknown-digest error; the environment is returned as it was: nothing
    is sent and nothing is read. *)
Theorem PutSignatures_unknown_digest (d : openshiftImageDestination)
    (signatures : list bytes) (env : Env W) :
  dst_imageStreamImageName d = "" →
  PutSignatures d signatures env
  = Some (Some "Internal error: Unknown manifest digest, can't add signatures",
          env).
Proof. intros Hname. unfold PutSignatures. by rewrite Hname. Qed.

(** A [PutManifest] that fails to compute the digest records nothing. *)
Lemma PutManifest_digest_error (d : openshiftImageDestination) (m : bytes)
    (env : Env W) (e : string) :
  manifest_Digest m = Err e → PutManifest d m env = (Some e, d, env).
Proof. intros Hdigest. unfold PutManifest. by rewrite Hdigest. Qed.

(** C8. With a content identifier recorded, [PutSignatures] of no
    signatures succeeds and returns the environment as it was: no request
    is sent, the image object is not fetched. *)
Theorem PutSignatures_empty (d : openshiftImageDestination) (env : Env W) :
  dst_imageStreamImageName d ≠ "" →
  PutSignatures d [] env = Some (None, env).
Proof.
  intros Hname. unfold PutSignatures.
  destruct (String.eqb_spec (dst_imageStreamImageName d) ""); [done|done].
Qed.

(** [PutSignatures] past its first test. *)
Lemma PutSignatures_known (d : openshiftImageDestination)
    (signatures : list bytes) (env : Env W) :
  dst_imageStreamImageName d ≠ "" →
  PutSignatures d signatures env
  = if (List.length signatures =? 0)%nat then Some (None, env)
    else match getImage (dst_client d) (dst_imageStreamImageName d) env with
         | (Err e, env) => Some (Some e, env)
         | (Ok image, env) =>
             putNewSignatures d (Signatures image)
               (collectSigNames (Signatures image)) signatures env
         end.
Proof.
  intros Hname. unfold PutSignatures.
  destruct (String.eqb_spec (dst_imageStreamImageName d) ""); [done|done].
Qed.

(** C10. When [manifest.Digest] gives the digest [dg], [PutManifest]
    records [dg] as content identifier and hands the manifest to the
    docker destination in the world as it found it; what it returns is
    what the docker destination returns, and the recording does not
    depend on it: it stands when the write is refused with an error as
    when it succeeds.  For a non-empty [dg], a later [PutSignatures] on
    the destination left passes the unknown-digest test: it succeeds at
    once for no signatures and otherwise goes on to fetch the image
    object named by [dg]. *)
Theorem PutManifest_records_digest (d : openshiftImageDestination)
    (m : bytes) (env : Env W) (dg : string) :
  manifest_Digest m = Ok dg →
  ∃ d',
    PutManifest d m env
    = ((docker_PutManifest m (world env)).1, d',
       {| world := (docker_PutManifest m (world env)).2;
          sent := sent env; tape := tape env |})
    ∧ dst_imageStreamImageName d' = dg
    ∧ dst_client d' = dst_client d
    ∧ (∀ e w, docker_PutManifest m (world env) = (Some e, w) →
         ∃ env', PutManifest d m env = (Some e, d', env'))
    ∧ (dg ≠ "" →
       ∀ signatures env2,
         PutSignatures d' signatures env2
         = if (List.length signatures =? 0)%nat then Some (None, env2)
           else match getImage (dst_client d) dg env2 with
                | (Err e, env) => Some (Some e, env)
                | (Ok image, env) =>
                    putNewSignatures d' (Signatures image)
                      (collectSigNames (Signatures image)) signatures env
                end).
Proof.
  intros Hdigest. unfold PutManifest. rewrite Hdigest.
  exists {| dst_client := dst_client d; dst_imageStreamImageName := dg |}.
  split; [by destruct (docker_PutManifest m (world env))|].
  split; [done|]. split; [done|]. split.
  - intros e w ->. eauto.
  - intros Hne signatures env2. by rewrite PutSignatures_known.
Qed.

End DestinationProperties.

Lemma PutSignatures_unknown_digest_witness :
  dst_imageStreamImageName (newDestination Scripted.client) = ""
  ∧ @PutSignatures _ _ (Scripted.collaborators Scripted.refusingScript)
      (newDestination Scripted.client) ["sig-1"] Scripted.env0
    = Some (Some "Internal error: Unknown manifest digest, can't add signatures",
            Scripted.env0).
Proof.
  split; [reflexivity|].
  exact (@PutSignatures_unknown_digest _ _
           (Scripted.collaborators Scripted.refusingScript)
           (newDestination Scripted.client) ["sig-1"] Scripted.env0 eq_refl).
Defined.

Lemma PutSignatures_empty_witness :
  dst_imageStreamImageName Store.destination ≠ ""
  ∧ @PutSignatures _ _ Store.collaborators Store.destination []
      (Store.env [] [])
    = Some (None, Store.env [] []).
Proof.
  assert (Hname : dst_imageStreamImageName Store.destination ≠ "")
    by discriminate.
  split; [exact Hname|].
  exact (@PutSignatures_empty _ _ Store.collaborators Store.destination
           (Store.env [] []) Hname).
Defined.

Lemma PutManifest_records_digest_witness :
  (∃ d' env',
     @PutManifest _ _ (Scripted.collaborators Scripted.refusingScript)
       (newDestination Scripted.client) "{}" Scripted.env0
     = (Some "unauthorized: authentication required", d', env')
     ∧ dst_imageStreamImageName d' = "sha256:0a"
     ∧ @PutSignatures _ _ (Scripted.collaborators Scripted.refusingScript)
         d' [] env'
       = Some (None, env'))
  ∧ (∃ d',
       @PutManifest _ _ Store.collaborators (newDestination Scripted.client)
         "{}" (Store.env [] [])
       = (None, d', Store.env [] [])
       ∧ dst_imageStreamImageName d' = "sha256:0a"
       ∧ @PutSignatures _ _ Store.collaborators d' [] (Store.env [] [])
         = Some (None, Store.env [] [])).
Proof.
  split.
  - destruct (@PutManifest_records_digest _ _
                (Scripted.collaborators Scripted.refusingScript)
                (newDestination Scripted.client) "{}" Scripted.env0
                "sha256:0a" eq_refl)
      as (d' & Hput & Hname & _ & _ & Hsig).
    exists d', Scripted.env0. split; [exact Hput|]. split; [exact Hname|].
    exact (Hsig ltac:(discriminate) [] Scripted.env0).
  - destruct (@PutManifest_records_digest _ _ Store.collaborators
                (newDestination Scripted.client) "{}" (Store.env [] [])
                "sha256:0a" eq_refl)
      as (d' & Hput & Hname & _ & _ & Hsig).
    exists d'. split; [exact Hput|]. split; [exact Hname|].
    exact (Hsig ltac:(discriminate) [] (Store.env [] [])).
Defined.

(** ** Signature names *)

Lemma length_append (s t : string) :
  String.length (s +:+ t) = (String.length s + String.length t)%nat.
Proof. induction s as [|c s IH]; simpl; [done|]. by rewrite IH. Qed.

Lemma chars_append (s t : string) :
  Strings.chars (s +:+ t) = Strings.chars s ++ Strings.chars t.
Proof. induction s as [|c s IH]; simpl; [done|]. by rewrite IH. Qed.

Lemma length_takeBytes (n : nat) (b : bytes) :
  (String.length (takeBytes n b) ≤ n)%nat.
Proof.
  revert b. induction n as [|n IH]; intros [|c b]; simpl; try lia.
  specialize (IH b). lia.
Qed.

Lemma length_zeroBytes (n : nat) : String.length (zeroBytes n) = n.
Proof. induction n as [|n IH]; simpl; [done|]. by rewrite IH. Qed.

Lemma length_randBytes (r : randRead) : String.length (randBytes r) = 16%nat.
Proof.
  unfold randBytes. rewrite length_append, length_zeroBytes.
  pose proof (length_takeBytes 16 (rd_data r)). lia.
Qed.

Lemma length_hex (b : bytes) :
  String.length (Strings.hex b) = (2 * String.length b)%nat.
Proof. induction b as [|c b IH]; simpl; [done|]. rewrite IH. lia. Qed.

Lemma hexDigit_lower (n : N) : Strings.isLowerHex (Strings.hexDigit n) = true.
Proof.
  destruct n as [|p]; [reflexivity|].
  do 4 (destruct p as [p|p|]; try reflexivity).
Qed.

Lemma hex_lower (b : bytes) :
  Forall (λ c, Strings.isLowerHex c = true) (Strings.chars (Strings.hex b)).
Proof.
  induction b as [|c b IH]; simpl; [constructor|].
  repeat constructor; auto using hexDigit_lower.
Qed.

Lemma fmt_032x_randBytes (r : randRead) :
  Strings.fmt_032x (randBytes r) = Strings.hex (randBytes r).
Proof.
  unfold Strings.fmt_032x.
  by rewrite length_hex, length_randBytes.
Qed.

(** A name the inner loop settles on is not among the known names and
    has the form [<id>@<32 lowercase hexadecimal digits>]. *)
Lemma inventName_sound (id : string) (known : gset string)
    (reads reads' : list randRead) (name : string) :
  inventName id known reads = Some (Ok name, reads') →
  (name ∉ known)
  ∧ ∃ digits, name = id +:+ "@" +:+ digits
      ∧ String.length digits = 32%nat
      ∧ Forall (λ c, Strings.isLowerHex c = true) (Strings.chars digits).
Proof.
  induction reads as [|r reads IH]; simpl; [done|].
  destruct (bool_decide (rd_err r ≠ None) || negb (rd_n r =? 16));
    [done|].
  case_bool_decide as Hknown; [exact IH|].
  intros [= <- <-]. split; [done|].
  exists (Strings.hex (randBytes r)). rewrite fmt_032x_randBytes.
  split; [done|]. split; [|apply hex_lower].
  by rewrite length_hex, length_randBytes.
Qed.

Lemma elem_of_collectSigNames (sigs : list imageSignature) (name : string) :
  name ∈ collectSigNames sigs ↔ ∃ sig, sig ∈ sigs ∧ Name (sig_objectMeta sig) = name.
Proof.
  unfold collectSigNames.
  induction sigs as [|sig sigs IH] using rev_ind.
  - simpl. split; [set_solver|]. intros (sig & Hin & _).
    by apply elem_of_nil in Hin.
  - rewrite foldl_app. simpl. rewrite elem_of_union, IH, elem_of_singleton.
    split.
    + intros [(sig' & Hin & Heq)| ->].
      * exists sig'. split; [|done]. apply elem_of_app. by left.
      * exists sig. split; [|done]. apply elem_of_app. right.
        apply list_elem_of_singleton. done.
    + intros (sig' & Hin & Heq). apply elem_of_app in Hin as [Hin|Hin].
      * left. by exists sig'.
      * apply list_elem_of_singleton in Hin as ->. by right.
Qed.

(** A sample that collides with the name of an existing signature is
    read again. *)
Example inventName_retries :
  inventName "abc"
    (collectSigNames
       [newImageSignature "abc@11111111111111111111111111111111" "old"])
    [Store.read16 byte11; Store.read16 "a"]
  = Some (Ok "abc@61616161616161616161616161616161", []).
Proof. vm_compute. reflexivity. Qed.

(** C1, at the failing input: two new signatures, an image without
    signatures, and a random source that delivers the same sixteen bytes
    twice.  The name minted for the first signature is not entered in
    [existingSigNames], so the second sample is accepted as well and both
    signatures are posted under one name. *)
Theorem PutSignatures_repeats_name :
  let name := "sha256:0a@61616161616161616161616161616161" in
  let run := @PutSignatures _ _ Store.collaborators Store.destination
               ["sig-1"; "sig-2"]
               (Store.env [] [Store.read16 "a"; Store.read16 "a"]) in
  option_map (λ r, (r.1, world r.2, map req_Body (sent r.2))) run
  = Some (None,
          [(name, "sig-1"); (name, "sig-2")],
          [None;
           Some (@json_Marshal_imageSignature _ _ Store.collaborators
                   (newImageSignature name "sig-1"));
           Some (@json_Marshal_imageSignature _ _ Store.collaborators
                   (newImageSignature name "sig-2"))]).
Proof. vm_compute. reflexivity. Qed.

(** ** The signature merge *)

Lemma sigExists_iff (existing : list imageSignature) (newSig : bytes) :
  sigExists existing newSig = true
  ↔ ∃ sig, sig ∈ existing ∧ Type' sig = imageSignatureTypeAtomic
           ∧ Content sig = newSig.
Proof.
  unfold sigExists. rewrite existsb_exists. split.
  - intros (sig & Hin & Htest). apply andb_true_iff in Htest as [Ht Hc].
    exists sig. rewrite list_elem_of_In.
    by apply String.eqb_eq in Ht, Hc.
  - intros (sig & Hin & Ht & Hc). exists sig.
    rewrite <- list_elem_of_In. split; [done|].
    rewrite Ht, Hc, !String.eqb_refl. done.
Qed.

Lemma sigExists_app (l1 l2 : list imageSignature) (newSig : bytes) :
  sigExists (l1 ++ l2) newSig = sigExists l1 newSig || sigExists l2 newSig.
Proof. apply existsb_app. Qed.

Section Merge.
Context {W D : Type} `{!Collaborators W D}.

Lemma buildRequest_fields (c : openshiftClient) (method path : string)
    (requestBody : option bytes) (req : Request) :
  buildRequest c method path requestBody = Ok req →
  Method req = method ∧ req_Body req = requestBody
  ∧ req_URL req = {| url_base := url_base (baseURL c); Path := path |}.
Proof.
  unfold buildRequest, http_NewRequest.
  destruct (http_NewRequest_error _ _); [done|].
  intros [= <-]. unfold setCredentials.
  destruct requestBody, (negb _); try destruct (negb _); done.
Qed.

Lemma doRequest_frame (c : openshiftClient) (method path : string)
    (requestBody : option bytes) (env env' : Env W) (r : result bytes) :
  doRequest c method path requestBody env = (r, env') →
  tape env' = tape env
  ∧ ∃ new, sent env' = sent env ++ new
           ∧ Forall (λ req, Method req = method) new.
Proof.
  unfold doRequest.
  destruct (buildRequest c method path requestBody) as [req|e] eqn:Hbuild.
  - destruct (buildRequest_fields _ _ _ _ _ Hbuild) as (Hmethod & _ & _).
    destruct (httpClient_Do req (world env)) as [res w].
    assert (Hnew : Forall (λ req, Method req = method) [req])
      by (by constructor).
    destruct res as [res|e]; [destruct (resp_Body res)|];
      intros [= <- <-]; simpl; eauto.
  - intros [= <- <-]. split; [done|]. exists []. by rewrite app_nil_r.
Qed.

Lemma getImage_frame (c : openshiftClient) (name : string)
    (env env' : Env W) (r : result image) :
  getImage c name env = (r, env') →
  tape env' = tape env
  ∧ ∃ new, sent env' = sent env ++ new
           ∧ Forall (λ req, Method req = "GET") new.
Proof.
  unfold getImage.
  destruct (doRequest c "GET" _ None env) as [[body|e] env1] eqn:Hreq;
    [destruct (json_Unmarshal_imageStreamImage body)|];
    intros [= <- <-]; exact (doRequest_frame _ _ _ _ _ _ _ Hreq).
Qed.

(** A candidate that an existing atomic signature already carries is
    passed over: no name is minted, nothing is sent. *)
Lemma putNewSignatures_skip (d : openshiftImageDestination)
    (existing : list imageSignature) (names : gset string)
    (newSig : bytes) (signatures : list bytes) (env : Env W) :
  sigExists existing newSig = true →
  putNewSignatures d existing names (newSig :: signatures) env
  = putNewSignatures d existing names signatures env.
Proof. intros Hexists. simpl. by rewrite Hexists. Qed.

Lemma putNewSignatures_all_exist (d : openshiftImageDestination)
    (existing : list imageSignature) (names : gset string)
    (signatures : list bytes) (env : Env W) :
  (∀ newSig, newSig ∈ signatures → sigExists existing newSig = true) →
  putNewSignatures d existing names signatures env = Some (None, env).
Proof.
  induction signatures as [|newSig signatures IH]; intros Hall; [done|].
  rewrite putNewSignatures_skip by (apply Hall; left).
  apply IH. intros s Hin. apply Hall. by right.
Qed.

(** The API server seen through the client: [stored w] are the
    signatures the server holds for the image of destination [d]. *)
Variable stored : W → list imageSignature.
Variable d : openshiftImageDestination.

(** Fetching the image changes nothing and, when it succeeds, shows the
    signatures held. *)
Hypothesis get_reads : ∀ (env env' : Env W) (r : result image),
  getImage (dst_client d) (dst_imageStreamImageName d) env = (r, env') →
  stored (world env') = stored (world env)
  ∧ ∀ image, r = Ok image → Signatures image = stored (world env).

(** A signature whose creation succeeds is held from then on, with its
    type and content. *)
Hypothesis post_appends : ∀ (env env' : Env W) (name : string)
    (content body : bytes),
  doRequest (dst_client d) "POST" "/oapi/v1/imagesignatures"
    (Some (json_Marshal_imageSignature (newImageSignature name content))) env
  = (Ok body, env') →
  ∃ sig, stored (world env') = stored (world env) ++ [sig]
         ∧ Type' sig = imageSignatureTypeAtomic ∧ Content sig = content.

(** A run of the loop that succeeds adds to the server one atomic
    signature per candidate that no existing signature carried, in the
    order of the candidates. *)
Lemma putNewSignatures_adds (existing : list imageSignature)
    (names : gset string) (signatures : list bytes) (env env' : Env W) :
  putNewSignatures d existing names signatures env = Some (None, env') →
  ∃ added, stored (world env') = stored (world env) ++ added
    ∧ (λ sig, (Type' sig, Content sig)) <$> added
      = (λ newSig, (imageSignatureTypeAtomic, newSig))
        <$> filter (λ newSig, sigExists existing newSig = false) signatures.
Proof.
  revert env. induction signatures as [|newSig signatures IH]; intros env.
  - intros [= <-]. exists []. split; [by rewrite app_nil_r|done].
  - simpl. destruct (sigExists existing newSig) eqn:Hexists.
    + intros Hrun. destruct (IH _ Hrun) as (added & Hstored & Hadded).
      exists added. split; [done|].
      rewrite filter_cons_False by (by rewrite Hexists). done.
    + destruct (inventName _ _ _) as [[[name|e] reads]|]; [|done|done].
      destruct (doRequest _ _ _ _ _) as [[body|e] env1] eqn:Hpost; [|done].
      intros Hrun. destruct (IH _ Hrun) as (added & Hstored & Hadded).
      destruct (post_appends _ _ _ _ _ Hpost) as (sig & Happ & Ht & Hc).
      simpl in Happ. exists (sig :: added). split.
      * rewrite Hstored, Happ, <- app_assoc. done.
      * rewrite filter_cons_True by done.
        rewrite !fmap_cons, Hadded, Ht, Hc. done.
Qed.

Lemma added_covers (existing added : list imageSignature)
    (signatures : list bytes) :
  (λ sig, (Type' sig, Content sig)) <$> added
  = (λ newSig, (imageSignatureTypeAtomic, newSig))
    <$> filter (λ newSig, sigExists existing newSig = false) signatures →
  ∀ newSig, newSig ∈ signatures →
    sigExists (existing ++ added) newSig = true.
Proof.
  intros Hadded newSig Hin. rewrite sigExists_app.
  destruct (sigExists existing newSig) eqn:Hexists; [done|]. simpl.
  assert (Hpair : (imageSignatureTypeAtomic, newSig)
                  ∈ (λ sig, (Type' sig, Content sig)) <$> added).
  { rewrite Hadded. apply list_elem_of_fmap. exists newSig. split; [done|].
    by apply list_elem_of_filter. }
  apply list_elem_of_fmap in Hpair as (sig & [= Ht Hc] & Hsig).
  apply sigExists_iff. by exists sig.
Qed.

(** C4. The merge is idempotent.  A candidate with the content of an
    existing atomic signature is passed over.  A run of [PutSignatures]
    that succeeds leaves on the server the signatures it found plus one
    atomic signature per candidate whose content none of those carried.
    A second run with the same signatures against the state the first
    one left (whatever the random source delivers) sends nothing but the
    request that fetches the image, reads no random bytes, and leaves the
    stored signatures exactly as the first run left them; it succeeds
    whenever that fetch does. *)
Theorem PutSignatures_idempotent (signatures : list bytes)
    (env env1 : Env W) (reads : list randRead) :
  PutSignatures d signatures env = Some (None, env1) →
  let again := {| world := world env1; sent := sent env1; tape := reads |} in
  (∀ existing names newSig rest env0,
     (∃ sig, sig ∈ existing ∧ Type' sig = imageSignatureTypeAtomic
             ∧ Content sig = newSig) →
     putNewSignatures d existing names (newSig :: rest) env0
     = putNewSignatures d existing names rest env0)
  ∧ (∃ added,
       stored (world env1) = stored (world env) ++ added
       ∧ (λ sig, (Type' sig, Content sig)) <$> added
         = (λ newSig, (imageSignatureTypeAtomic, newSig))
           <$> filter (λ newSig, sigExists (stored (world env)) newSig = false)
                 signatures)
  ∧ ∃ r env2,
      PutSignatures d signatures again = Some (r, env2)
      ∧ stored (world env2) = stored (world env1)
      ∧ tape env2 = reads
      ∧ (∃ new, sent env2 = sent env1 ++ new
                ∧ Forall (λ req, Method req = "GET") new)
      ∧ (r = None
         ∨ ∃ e, r = Some e
             ∧ (getImage (dst_client d) (dst_imageStreamImageName d)
                  again).1 = Err e).
Proof.
  intros Hfirst again. split.
  { intros existing names newSig rest env0 Hsig.
    apply putNewSignatures_skip. by apply sigExists_iff. }
  unfold PutSignatures in *.
  destruct (String.eqb (dst_imageStreamImageName d) ""); [done|].
  destruct signatures as [|newSig signatures].
  { injection Hfirst as <-. split.
    - exists []. by rewrite app_nil_r.
    - exists None, again. split; [done|]. split; [done|]. split; [done|].
      split; [|by left]. exists []. by rewrite app_nil_r. }
  set (candidates := newSig :: signatures) in *.
  change (List.length candidates =? 0)%nat with false in *. cbv iota in *.
  destruct (getImage _ _ env) as [[image|e] envg] eqn:Hget; [|done].
  destruct (get_reads _ _ _ Hget) as [Hsame Hshown].
  destruct (putNewSignatures_adds _ _ _ _ _ Hfirst)
    as (added & Hstored & Hadded).
  rewrite (Hshown image eq_refl) in Hadded. rewrite Hsame in Hstored.
  pose proof (added_covers _ _ _ Hadded) as Hall. rewrite <- Hstored in Hall.
  split; [by exists added|].
  destruct (getImage _ _ again) as [[image2|e2] env2] eqn:Hget2.
  - destruct (get_reads _ _ _ Hget2) as [Hsame2 Hshown2].
    destruct (getImage_frame _ _ _ _ _ Hget2) as [Htape Hsent].
    exists None, env2.
    rewrite putNewSignatures_all_exist
      by (by rewrite (Hshown2 image2 eq_refl)).
    split; [done|]. split; [done|]. split; [done|]. split; [done|].
    by left.
  - destruct (get_reads _ _ _ Hget2) as [Hsame2 _].
    destruct (getImage_frame _ _ _ _ _ Hget2) as [Htape Hsent].
    exists (Some e2), env2.
    split; [done|]. split; [done|]. split; [done|]. split; [done|].
    right. by exists e2.
Qed.

End Merge.

(** ** The in-memory server is an additive store *)

Lemma append_empty_r (s : string) : s +:+ "" = s.
Proof.
  induction s as [|c s IH]; [done|].
  change (String c (s +:+ "") = String c s). by rewrite IH.
Qed.

Lemma append_snoc (s t : string) (c : ascii) :
  (s +:+ String c "") +:+ t = s +:+ String c t.
Proof.
  induction s as [|c' s IH]; [done|].
  change (String c' ((s +:+ String c "") +:+ t) = String c' (s +:+ String c t)).
  by rewrite IH.
Qed.

Lemma decList_encString (acc s t : string) :
  Store.decList acc (Store.encString s +:+ t)
  = (acc +:+ s) :: Store.decList "" t.
Proof.
  revert acc. induction s as [|c s IH]; intros acc.
  - rewrite append_empty_r. reflexivity.
  - change (Store.encString (String c s) +:+ t)
      with (String "1" (String c (Store.encString s +:+ t))).
    cbn [Store.decList]. change (Ascii.eqb "1" "0") with false. cbv iota.
    by rewrite IH, append_snoc.
Qed.

Lemma decList_encList (l : list string) :
  Store.decList "" (Store.encList l) = l.
Proof.
  induction l as [|s l IH]; [done|].
  simpl Store.encList. by rewrite decList_encString, IH.
Qed.

Lemma pairUp_flatten (st : Store.state) :
  Store.pairUp (Store.flatten st) = st.
Proof. induction st as [|[n c] st IH]; simpl; [done|]. by rewrite IH. Qed.

Lemma Store_doRequest (c : openshiftClient) (method path : string)
    (requestBody : option bytes) (env : Env Store.state) :
  ∃ req,
    Method req = method ∧ req_Body req = requestBody
    ∧ @doRequest _ _ Store.collaborators c method path requestBody env
      = match Store.serve req (world env) with
        | (Ok res, w) =>
            match resp_Body res with
            | Ok body =>
                (@classify _ _ Store.collaborators (StatusCode res) body,
                 {| world := w; sent := sent env ++ [req];
                    tape := tape env |})
            | Err e => (Err e, {| world := w; sent := sent env ++ [req];
                                  tape := tape env |})
            end
        | (Err e, w) => (Err e, {| world := w; sent := sent env ++ [req];
                                   tape := tape env |})
        end.
Proof.
  unfold doRequest.
  destruct (@buildRequest _ _ Store.collaborators c method path requestBody)
    as [req|e] eqn:Hbuild.
  - destruct (buildRequest_fields _ _ _ _ _ Hbuild) as (Hm & Hb & _).
    exists req. split; [done|]. split; [done|]. reflexivity.
  - unfold buildRequest, http_NewRequest in Hbuild. simpl in Hbuild.
    discriminate Hbuild.
Qed.

Lemma Store_get_reads (env env' : Env Store.state) (r : result image) :
  @getImage _ _ Store.collaborators (dst_client Store.destination)
    (dst_imageStreamImageName Store.destination) env = (r, env') →
  Store.stored (world env') = Store.stored (world env)
  ∧ ∀ image, r = Ok image → Signatures image = Store.stored (world env).
Proof.
  unfold getImage.
  destruct (Store_doRequest (dst_client Store.destination) "GET"
              ("/oapi/v1/namespaces/"
               +:+ namespace (ref (dst_client Store.destination))
               +:+ "/imagestreamimages/"
               +:+ stream (ref (dst_client Store.destination))
               +:+ "@" +:+ dst_imageStreamImageName Store.destination)
              None env) as (req & Hm & _ & ->).
  unfold Store.serve. rewrite Hm. simpl. intros [= <- <-]. simpl.
  split; [done|]. intros image [= <-]. simpl.
  by rewrite decList_encList, pairUp_flatten.
Qed.

Lemma Store_post_appends (env env' : Env Store.state) (name : string)
    (content body : bytes) :
  @doRequest _ _ Store.collaborators (dst_client Store.destination)
    "POST" "/oapi/v1/imagesignatures"
    (Some (@json_Marshal_imageSignature _ _ Store.collaborators
             (newImageSignature name content))) env
  = (Ok body, env') →
  ∃ sig, Store.stored (world env') = Store.stored (world env) ++ [sig]
         ∧ Type' sig = imageSignatureTypeAtomic ∧ Content sig = content.
Proof.
  destruct (Store_doRequest (dst_client Store.destination) "POST"
              "/oapi/v1/imagesignatures"
              (Some (@json_Marshal_imageSignature _ _ Store.collaborators
                       (newImageSignature name content))) env)
    as (req & Hm & Hb & ->).
  unfold Store.serve. rewrite Hm, Hb.
  change (String.eqb "POST" "POST") with true. cbv iota.
  change (default "" (Some ?b)) with b.
  change (@json_Marshal_imageSignature _ _ Store.collaborators
            (newImageSignature name content))
    with (Store.encList [name; content]).
  rewrite decList_encList. simpl. intros [= <- <-]. simpl.
  exists (newImageSignature name content).
  unfold Store.stored. by rewrite map_app.
Qed.

Lemma PutSignatures_idempotent_witness :
  let first := Store.env [("sha256:0a@old", "sig-0")]
                 [Store.read16 "a"; Store.read16 "b"] in
  ∃ env1 env2,
    @PutSignatures _ _ Store.collaborators Store.destination
      ["sig-0"; "sig-1"; "sig-2"] first = Some (None, env1)
    ∧ @PutSignatures _ _ Store.collaborators Store.destination
        ["sig-0"; "sig-1"; "sig-2"]
        {| world := world env1; sent := sent env1; tape := [] |}
      = Some (None, env2)
    ∧ world env1 = [("sha256:0a@old", "sig-0");
                    ("sha256:0a@61616161616161616161616161616161", "sig-1");
                    ("sha256:0a@62626262626262626262626262626262", "sig-2")]
    ∧ Store.stored (world env2) = Store.stored (world env1).
Proof.
  intros first.
  destruct (@PutSignatures _ _ Store.collaborators Store.destination
              ["sig-0"; "sig-1"; "sig-2"] first)
    as [[[e|] env1]|] eqn:Hfirst; try (vm_compute in Hfirst; discriminate).
  destruct (@PutSignatures_idempotent _ _ Store.collaborators Store.stored
              Store.destination Store_get_reads Store_post_appends
              ["sig-0"; "sig-1"; "sig-2"] first env1 [] Hfirst)
    as (_ & _ & r & env2 & Hsecond & Hstored & _ & _ & Hr).
  exists env1, env2. split; [reflexivity|].
  assert (Hworld : world env1
                   = [("sha256:0a@old", "sig-0");
                      ("sha256:0a@61616161616161616161616161616161", "sig-1");
                      ("sha256:0a@62626262626262626262626262626262", "sig-2")]).
  { vm_compute in Hfirst. by injection Hfirst as <-. }
  destruct Hr as [->|(e & -> & Hget)].
  - done.
  - exfalso. clear -Hget Hworld.
    unfold getImage, doRequest in Hget. simpl in Hget. discriminate Hget.
Defined.

(** ** The manifest-list selector *)

Module ManifestListProperties.
Import ManifestList.

Section Selection.
Variables GOARCH GOOS : string.

Lemma matchesPlatform_iff (d : manifestDescriptor) :
  matchesPlatform GOARCH GOOS d = true
  ↔ Architecture (Platform d) = GOARCH ∧ OS (Platform d) = GOOS.
Proof.
  unfold matchesPlatform. rewrite andb_true_iff, !String.eqb_eq. done.
Qed.

Lemma selectDigest_first (pre post : list manifestDescriptor)
    (d : manifestDescriptor) :
  Forall (λ p, matchesPlatform GOARCH GOOS p = false) pre →
  matchesPlatform GOARCH GOOS d = true →
  selectDigest GOARCH GOOS (pre ++ d :: post) = Digest (md_descriptor d).
Proof.
  intros Hpre Hd. induction Hpre as [|p pre Hp _ IH]; simpl.
  - by rewrite Hd.
  - by rewrite Hp.
Qed.

Lemma selectDigest_none (ds : list manifestDescriptor) :
  Forall (λ p, matchesPlatform GOARCH GOOS p = false) ds →
  selectDigest GOARCH GOOS ds = "".
Proof. induction 1 as [|p ds Hp _ IH]; simpl; [done|]. by rewrite Hp. Qed.

Variables (S genericManifest : Type).
Variable json_Unmarshal_manifestList : bytes → result manifestList.
Variable GetTargetManifest : string → S → result (bytes * string) * S.
Variable manifestInstanceFromBlob :
  bytes → string → S → result genericManifest * S.

Abbreviation selector := (manifestSchema2FromManifestList GOARCH GOOS S
  genericManifest json_Unmarshal_manifestList GetTargetManifest
  manifestInstanceFromBlob).

(** C5, as the code has it.  Let [d] be the first descriptor, in the
    order of [manifests], whose architecture and OS are equal as strings
    to [GOARCH] and [GOOS].  When the digest of [d] is not empty, the
    selector asks the source for the manifest of that digest and hands
    the blob and MIME type it gets to [manifestInstanceFromBlob]; when the
    digest of [d] is empty, it fails with the no-supported-platform error
    and asks the source for nothing.  When no descriptor matches, it
    fails with the same error. *)
Theorem manifestSchema2FromManifestList_selects (manblob : bytes)
    (list : manifestList) (st : S) :
  json_Unmarshal_manifestList manblob = Ok list →
  (∀ pre d post,
     Manifests list = pre ++ d :: post →
     Forall (λ p, ¬ (Architecture (Platform p) = GOARCH
                     ∧ OS (Platform p) = GOOS)) pre →
     Architecture (Platform d) = GOARCH → OS (Platform d) = GOOS →
     (Digest (md_descriptor d) ≠ "" →
      selector manblob st
      = match GetTargetManifest (Digest (md_descriptor d)) st with
        | (Err e, st') => (Err e, st')
        | (Ok (blob, mt), st') => manifestInstanceFromBlob blob mt st'
        end)
     ∧ (Digest (md_descriptor d) = "" →
        selector manblob st
        = (Err "no supported platform found in manifest list", st)))
  ∧ ((∀ d, d ∈ Manifests list →
           ¬ (Architecture (Platform d) = GOARCH ∧ OS (Platform d) = GOOS)) →
     selector manblob st
     = (Err "no supported platform found in manifest list", st)).
Proof.
  intros Hdecode. unfold manifestSchema2FromManifestList.
  rewrite Hdecode. split.
  - intros pre d post Hlist Hpre Harch Hos.
    assert (Hdigest : selectDigest GOARCH GOOS (Manifests list)
                      = Digest (md_descriptor d)).
    { rewrite Hlist. apply selectDigest_first.
      - eapply Forall_impl; [exact Hpre|]. intros p Hp. simpl.
        destruct (matchesPlatform GOARCH GOOS p) eqn:Hm; [|done].
        by apply matchesPlatform_iff in Hm.
      - by apply matchesPlatform_iff. }
    rewrite Hdigest. split; intros Hd.
    + destruct (String.eqb_spec (Digest (md_descriptor d)) ""); [done|].
      reflexivity.
    + by rewrite Hd.
  - intros Hnone. rewrite selectDigest_none; [done|].
    apply Forall_forall. intros d Hin.
    destruct (matchesPlatform GOARCH GOOS d) eqn:Hm; [|done].
    apply matchesPlatform_iff in Hm. by destruct (Hnone d Hin).
Qed.

End Selection.

(** C5 as stated fails: the one descriptor of the list is the first that
    matches linux/amd64, it carries no digest, and the selector reports
    that no platform is supported instead of asking the source for the
    manifest of the descriptor's digest. *)
Lemma manifestSchema2FromManifestList_empty_digest :
  let d := Double.entry "amd64" "linux" "" in
  Architecture (Platform d) = "amd64" ∧ OS (Platform d) = "linux"
  ∧ Double.select [d]
    = (Err "no supported platform found in manifest list", [])
  ∧ Double.select [d]
    ≠ fetchManifest (list string) (bytes * string) Double.GetTargetManifest
        Double.manifestInstanceFromBlob (Digest (md_descriptor d)) [].
Proof. repeat split. discriminate. Qed.

Lemma manifestSchema2FromManifestList_selects_witness :
  Double.select [Double.entry "arm64" "linux" "sha256:aa";
                 Double.entry "amd64" "linux" "sha256:bb";
                 Double.entry "amd64" "linux" "sha256:cc"]
  = (Ok ("manifest of sha256:bb",
         "application/vnd.docker.distribution.manifest.v2+json"),
     ["sha256:bb"])
  ∧ Double.select [Double.entry "arm64" "linux" "sha256:aa";
                   Double.entry "amd64" "windows" "sha256:bb"]
    = (Err "no supported platform found in manifest list", []).
Proof.
  pose (selection := λ entries,
    manifestSchema2FromManifestList_selects "amd64" "linux" (list string)
      (bytes * string) (λ _, Ok (Double.listOf entries))
      Double.GetTargetManifest Double.manifestInstanceFromBlob
      "{}" (Double.listOf entries) [] eq_refl).
  split.
  - refine (proj1 (proj1 (selection _)
              [Double.entry "arm64" "linux" "sha256:aa"]
              (Double.entry "amd64" "linux" "sha256:bb")
              [Double.entry "amd64" "linux" "sha256:cc"]
              eq_refl _ eq_refl eq_refl) _); [|discriminate].
    constructor; [|constructor]. intros [Harch _]. discriminate Harch.
  - refine (proj2 (selection _) _).
    intros d Hin [Harch Hos]. simpl in Hin.
    apply elem_of_cons in Hin as [->|Hin]; [discriminate Harch|].
    apply elem_of_cons in Hin as [->|Hin]; [discriminate Hos|].
    by apply elem_of_nil in Hin.
Defined.

End ManifestListProperties.

(** * Further properties *)

(** ** The transport client, continued *)

Section ClientFurther.
Context {W D : Type} `{!Collaborators W D}.

(** What a call of [doRequest] does to the environment: nothing when the
    request cannot be built, else one request handed to the HTTP client. *)
Lemma doRequest_sent (c : openshiftClient) (method path : string)
    (requestBody : option bytes) (env env' : Env W) (r : result bytes) :
  doRequest c method path requestBody env = (r, env') →
  (∃ e, buildRequest c method path requestBody = Err e
        ∧ r = Err e ∧ env' = env)
  ∨ (∃ req, buildRequest c method path requestBody = Ok req
            ∧ sent env' = sent env ++ [req]
            ∧ tape env' = tape env
            ∧ world env' = (httpClient_Do req (world env)).2).
Proof.
  unfold doRequest.
  destruct (buildRequest c method path requestBody) as [req|e] eqn:Hbuild.
  - destruct (httpClient_Do req (world env)) as [res w] eqn:Hdo.
    intros Hrun. right. exists req. split; [done|].
    destruct res as [res|e]; [destruct (resp_Body res)|];
      injection Hrun as <- <-; simpl; by rewrite ?Hdo.
  - intros [= <- <-]. left. by exists e.
Qed.

(** X1. A response with code 101 whose body is no failing status
    envelope (it does not decode, or its [Status] is empty or
    ["Success"]) makes [doRequest] succeed with the raw body. *)
Theorem doRequest_upgrade_success (c : openshiftClient) (method path : string)
    (requestBody : option bytes) (env : Env W) (req : Request)
    (res : Response) (w : W) (body : bytes) :
  buildRequest c method path requestBody = Ok req →
  httpClient_Do req (world env) = (Ok res, w) →
  resp_Body res = Ok body →
  StatusCode res = 101 →
  (∀ st, json_Unmarshal_status body = Ok st →
         Status st = "" ∨ Status st = "Success") →
  (doRequest c method path requestBody env).1 = Ok body.
Proof.
  intros Hbuild Hdo Hbody Hcode Hstatus.
  rewrite (doRequest_response _ _ _ _ _ _ _ _ _ Hbuild Hdo Hbody). simpl.
  rewrite Hcode.
  destruct (json_Unmarshal_status body) as [st|e] eqn:Hdec.
  - destruct (decide (Status st = "")) as [Hempty|Hne].
    + rewrite classify_statusInvalid; [done|].
      intros st' Hst'. rewrite Hdec in Hst'. by injection Hst' as <-.
    + rewrite (classify_statusValid _ _ _ Hdec Hne). simpl.
      destruct (Hstatus st eq_refl) as [?|Hsuccess]; [done|].
      by rewrite Hsuccess.
  - rewrite classify_statusInvalid; [done|].
    intros st' Hst'. rewrite Hdec in Hst'. discriminate Hst'.
Qed.

(** X2. [doRequest] returns a body only for a response of code 101 or
    200 to 206, and the body is the one read from that response. *)
Theorem doRequest_success_inv (c : openshiftClient) (method path : string)
    (requestBody : option bytes) (env env' : Env W) (body : bytes) :
  doRequest c method path requestBody env = (Ok body, env') →
  ∃ req res,
    buildRequest c method path requestBody = Ok req
    ∧ httpClient_Do req (world env) = (Ok res, world env')
    ∧ resp_Body res = Ok body
    ∧ (StatusCode res = 101 ∨ 200 ≤ StatusCode res ≤ 206).
Proof.
  unfold doRequest.
  destruct (buildRequest c method path requestBody) as [req|e]; [|done].
  destruct (httpClient_Do req (world env)) as [[res|e] w] eqn:Hdo; [|done].
  destruct (resp_Body res) as [body'|e] eqn:Hbody; [|done].
  intros [= Hclass <-]. exists req, res. simpl.
  assert (Hcode : body' = body
                  ∧ (StatusCode res = 101 ∨ 200 ≤ StatusCode res ≤ 206)).
  { revert Hclass. unfold classify, StatusSwitchingProtocols, StatusOK,
      StatusPartialContent.
    destruct (Z.eqb_spec (StatusCode res) 101) as [Hcode|_].
    - destruct (_ && negb _); intros [= <-]. eauto.
    - destruct ((200 <=? StatusCode res) && (StatusCode res <=? 206))
        eqn:Hrange.
      + intros [= <-]. split; [done|]. right.
        apply andb_true_iff in Hrange as [Hlo Hhi].
        apply Z.leb_le in Hlo, Hhi. lia.
      + by destruct (match json_Unmarshal_status body' with
                     | Ok st => _ | Err _ => false end). }
  destruct Hcode as [-> Hcode]. done.
Qed.

Lemma buildRequest_headers (c : openshiftClient) (method path : string)
    (requestBody : option bytes) (req : Request) :
  buildRequest c method path requestBody = Ok req →
  Header req !! "Accept" = Some ["application/json, */*"]
  ∧ Header req !! "User-Agent" = Some ["skopeo/" +:+ version_Version]
  ∧ Header req !! "Content-Type"
    = match requestBody with
      | Some _ => Some ["application/json"]
      | None => None
      end.
Proof.
  unfold buildRequest, http_NewRequest.
  destruct (http_NewRequest_error _ _); [done|].
  intros [= <-]. unfold setCredentials.
  destruct requestBody, (negb _); try destruct (negb _); simpl;
    repeat first [rewrite lookup_insert_eq
                 |rewrite lookup_insert_ne by done
                 |rewrite lookup_empty]; done.
Qed.

(** X3. Whenever [http.NewRequest] accepts the method and the URL, a
    call of [doRequest] sends one request.  It has the method and the
    body of the call; its URL is the client's base URL with the path
    replaced by the path of the call (a path of the base URL is lost);
    it asks for JSON, names the product and its version, and declares a
    JSON body exactly when there is a body. *)
Theorem doRequest_request (c : openshiftClient) (method path : string)
    (requestBody : option bytes) (env : Env W) :
  http_NewRequest_error method
    {| url_base := url_base (baseURL c); Path := path |} = None →
  ∃ req,
    sent (doRequest c method path requestBody env).2 = sent env ++ [req]
    ∧ Method req = method
    ∧ url_base (req_URL req) = url_base (baseURL c)
    ∧ Path (req_URL req) = path
    ∧ req_Body req = requestBody
    ∧ Header req !! "Accept" = Some ["application/json, */*"]
    ∧ Header req !! "User-Agent" = Some ["skopeo/" +:+ version_Version]
    ∧ Header req !! "Content-Type"
      = match requestBody with
        | Some _ => Some ["application/json"]
        | None => None
        end.
Proof.
  intros Hnew.
  destruct (buildRequest_Ok c method path requestBody Hnew) as [req Hbuild].
  destruct (buildRequest_fields _ _ _ _ _ Hbuild) as (Hm & Hb & Hu).
  destruct (buildRequest_headers _ _ _ _ _ Hbuild) as (Ha & Hua & Hct).
  exists req. split; [by apply doRequest_sends|].
  rewrite Hu. done.
Qed.

(** [getImage] leaves the random source alone and sends at most one
    request: a GET without body for the image object of the client's
    stream; when it returns an image, it has sent exactly one. *)
Lemma getImage_request (c : openshiftClient) (name : string)
    (env env' : Env W) (r : result image) :
  getImage c name env = (r, env') →
  tape env' = tape env
  ∧ ∃ new, sent env' = sent env ++ new
      ∧ Forall (imageRequest c name) new
      ∧ (List.length new ≤ 1)%nat
      ∧ (isOk r = true → List.length new = 1%nat).
Proof.
  unfold getImage. fold (imagePath c name).
  destruct (doRequest c "GET" (imagePath c name) None env)
    as [rb env1] eqn:Hreq.
  intros Hrun.
  assert (Henv : env' = env1 ∧ (isOk r = true → isOk rb = true)).
  { destruct rb as [body|e];
      [destruct (json_Unmarshal_imageStreamImage body)|];
      injection Hrun as <- <-; done. }
  destruct Henv as [-> Hok].
  destruct (doRequest_sent _ _ _ _ _ _ _ Hreq)
    as [(e & _ & -> & ->)|(req & Hbuild & Hsent & Htape & _)].
  - split; [done|]. exists []. rewrite app_nil_r.
    split; [done|]. split; [constructor|]. split; [simpl; lia|].
    intros Hr. by specialize (Hok Hr).
  - split; [done|]. exists [req]. split; [done|].
    destruct (buildRequest_fields _ _ _ _ _ Hbuild) as (Hm & Hb & Hu).
    destruct (buildRequest_headers _ _ _ _ _ Hbuild) as (_ & _ & Hct).
    split; [by repeat constructor|]. by split.
Qed.

End ClientFurther.

(** ** The reference translator, continued *)

Lemma cut_Some sep s before after :
  Strings.cut sep s = Some (before, after) →
  s = before +:+ String sep after ∧ sep ∉ Strings.chars before.
Proof.
  revert before. induction s as [|c s IH]; simpl; intros before; [done|].
  destruct (Ascii.eqb_spec c sep) as [->|Hne].
  - intros [= <- <-]. split; [done|]. apply not_elem_of_nil.
  - destruct (Strings.cut sep s) as [[b a]|]; [|done].
    intros [= <- <-]. destruct (IH b eq_refl) as [-> Hnot].
    split; [done|]. simpl. apply not_elem_of_cons. split; [congruence|done].
Qed.

Lemma SplitN_nonempty s sep n : Strings.SplitN s sep (S n) ≠ [].
Proof.
  destruct n as [|n]; simpl; [done|].
  by destruct (Strings.cut sep s) as [[b a]|].
Qed.

Lemma joinWith_cons sep s parts :
  parts ≠ [] → joinWith sep (s :: parts) = s +:+ String sep (joinWith sep parts).
Proof. by destruct parts. Qed.

(** X4. [SplitN] loses nothing: for a positive count, joining the parts
    with the separator gives the string back; there are at most as many
    parts as asked for, and for a count of 2 the first part is free of
    the separator whenever there are two. *)
Theorem SplitN_join (s : string) (sep : ascii) (n : nat) :
  joinWith sep (Strings.SplitN s sep (S n)) = s
  ∧ (List.length (Strings.SplitN s sep (S n)) ≤ S n)%nat
  ∧ ∀ first second, Strings.SplitN s sep 2 = [first; second] →
      sep ∉ Strings.chars first.
Proof.
  split; [|split].
  - revert s. induction n as [|n IH]; intros s; [done|].
    change (Strings.SplitN s sep (S (S n)))
      with (match Strings.cut sep s with
            | Some (before, after) => before :: Strings.SplitN after sep (S n)
            | None => [s]
            end).
    destruct (Strings.cut sep s) as [[before after]|] eqn:Hcut; [|done].
    rewrite joinWith_cons by apply SplitN_nonempty.
    rewrite IH. by destruct (cut_Some _ _ _ _ Hcut) as [-> _].
  - revert s. induction n as [|n IH]; intros s; [simpl; lia|].
    change (Strings.SplitN s sep (S (S n)))
      with (match Strings.cut sep s with
            | Some (before, after) => before :: Strings.SplitN after sep (S n)
            | None => [s]
            end).
    destruct (Strings.cut sep s) as [[before after]|]; simpl; [|lia].
    specialize (IH after). simpl in IH. lia.
  - intros first second. simpl.
    destruct (Strings.cut sep s) as [[before after]|] eqn:Hcut; [|done].
    intros [= <- <-]. by destruct (cut_Some _ _ _ _ Hcut).
Qed.

Lemma convert_without_separator c r :
  ("/"%char) ∉ Strings.chars r →
  convertDockerImageReference c r
  = Err ("Invalid format of docker reference " +:+ r +:+ ": missing '/'").
Proof.
  intros Hnot. unfold convertDockerImageReference. simpl Strings.SplitN.
  by rewrite (cut_absent _ _ Hnot).
Qed.

Lemma convert_Ok_inv c r r' :
  convertDockerImageReference c r = Ok r' →
  ∃ host rest, r = host +:+ "/" +:+ rest
    ∧ (("/"%char) ∉ Strings.chars host)
    ∧ r' = Hostname (dockerRef (ref c)) +:+ "/" +:+ rest.
Proof.
  intros Hconv. destruct (decide (("/"%char) ∈ Strings.chars r)) as [Hin|Hnot].
  - destruct (cut_present _ _ Hin) as (host & rest & -> & Hnot).
    exists host, rest. split; [done|]. split; [done|].
    change (String "/" rest) with ("/" +:+ rest) in Hconv.
    rewrite convert_with_separator in Hconv by done. by injection Hconv.
  - by rewrite convert_without_separator in Hconv.
Qed.

(** X5. When the host name of the user's reference has no ['/'], the
    translation is idempotent: a translated reference translates to
    itself.  Whatever stands before the first ['/'] of the input plays no
    part in the result. *)
Theorem convertDockerImageReference_idempotent (c : openshiftClient)
    (r r' : string) :
  ("/"%char) ∉ Strings.chars (Hostname (dockerRef (ref c))) →
  convertDockerImageReference c r = Ok r' →
  convertDockerImageReference c r' = Ok r'
  ∧ ∀ host host' rest,
      ("/"%char) ∉ Strings.chars host → ("/"%char) ∉ Strings.chars host' →
      r = host +:+ "/" +:+ rest →
      convertDockerImageReference c (host' +:+ "/" +:+ rest) = Ok r'.
Proof.
  intros Hhost Hconv.
  destruct (convert_Ok_inv _ _ _ Hconv) as (host0 & rest0 & -> & Hnot0 & ->).
  split.
  - by apply convert_with_separator.
  - intros host host' rest Hnot Hnot' Heq.
    assert (Hcut : Some (host0, rest0) = Some (host, rest)).
    { rewrite <- (cut_fresh "/" host0 rest0), <- (cut_fresh "/" host rest)
        by done.
      f_equal. exact Heq. }
    injection Hcut as _ ->. by apply convert_with_separator.
Qed.

(** ** The image source, continued *)

Section SourceFurther.
Context {W D : Type} `{!Collaborators W D} `{!Transport W D}.

Lemma resolveTagEvent_frame (s s' : openshiftImageSource D) (te : tagEvent)
    (env env' : Env W) (r : option string) :
  resolveTagEvent s te env = (r, s', env') →
  sent env' = sent env ∧ tape env' = tape env
  ∧ src_client s' = src_client s
  ∧ requestedManifestMIMETypes s' = requestedManifestMIMETypes s
  ∧ (is_Some r → s' = s)
  ∧ (r = None → is_Some (src_docker s')).
Proof.
  unfold resolveTagEvent.
  destruct (convertDockerImageReference _ _) as [dockerRefString|e].
  - destruct (docker_NewImageSource _ _ _) as [[d|e] w];
      intros [= <- <- <-]; simpl; repeat split; eauto;
      solve [done | by intros [? ?]].
  - intros [= <- <- <-]. repeat split; eauto; done.
Qed.

Lemma ensureImageIsResolved_stable (s : openshiftImageSource D) :
  is_Some (src_docker s) →
  ∀ env, ensureImageIsResolved s env = (None, s, env).
Proof. intros [d Hd] env. unfold ensureImageIsResolved. by rewrite Hd. Qed.

Lemma ensureImageIsResolved_cases (s s' : openshiftImageSource D)
    (env env' : Env W) (r : option string) :
  ensureImageIsResolved s env = (r, s', env') →
  src_client s' = src_client s
  ∧ requestedManifestMIMETypes s' = requestedManifestMIMETypes s
  ∧ (is_Some r → s' = s)
  ∧ (r = None → is_Some (src_docker s')).
Proof.
  unfold ensureImageIsResolved.
  destruct (src_docker s) as [d|] eqn:Hdocker.
  { intros [= <- <- <-]. repeat split; eauto;
      solve [done | by intros [? ?]]. }
  destruct (doRequest _ _ _ _ _) as [[body|e] env1].
  - destruct (json_Unmarshal_imageStream body) as [istream|e].
    + destruct (findTagEvent _ _) as [te|].
      * intros Hres.
        destruct (resolveTagEvent_frame _ _ _ _ _ _ Hres)
          as (_ & _ & Hc & Hm & Hfail & Hok).
        done.
      * intros [= <- <- <-]. repeat split; eauto; done.
    + intros [= <- <- <-]. repeat split; eauto; done.
  - intros [= <- <- <-]. repeat split; eauto; done.
Qed.

(** X6. The resolution of a source is a two-state machine.  A failed
    [ensureImageIsResolved] returns the source as it was, so the next
    access tries again; a successful one leaves a docker source in
    place, and from then on [ensureImageIsResolved] is a no-op in every
    environment.  Client and requested MIME types never change. *)
Theorem ensureImageIsResolved_state (s s' : openshiftImageSource D)
    (env env' : Env W) (r : option string) :
  ensureImageIsResolved s env = (r, s', env') →
  src_client s' = src_client s
  ∧ requestedManifestMIMETypes s' = requestedManifestMIMETypes s
  ∧ (is_Some r → s' = s)
  ∧ (r = None →
       is_Some (src_docker s')
       ∧ ∀ env2, ensureImageIsResolved s' env2 = (None, s', env2)).
Proof.
  intros Hrun.
  destruct (ensureImageIsResolved_cases _ _ _ _ _ Hrun)
    as (Hc & Hm & Hfail & Hok).
  split; [done|]. split; [done|]. split; [done|].
  intros ->. split; [by apply Hok|].
  apply ensureImageIsResolved_stable. by apply Hok.
Qed.

(** X7. [ensureImageIsResolved] never reads the random source and sends
    at most one request, a GET without body for the image stream of the
    reference; on a source already resolved it sends nothing and leaves
    the world as it is. *)
Theorem ensureImageIsResolved_request (s s' : openshiftImageSource D)
    (env env' : Env W) (r : option string) :
  ensureImageIsResolved s env = (r, s', env') →
  tape env' = tape env
  ∧ (∃ new, sent env' = sent env ++ new
       ∧ (List.length new ≤ 1)%nat
       ∧ Forall (streamRequest (src_client s)) new)
  ∧ (is_Some (src_docker s) → env' = env).
Proof.
  unfold ensureImageIsResolved.
  destruct (src_docker s) as [d|] eqn:Hdocker.
  { intros [= <- <- <-]. split; [done|]. split; [|done].
    exists []. rewrite app_nil_r. split; [done|]. split; [simpl; lia|done]. }
  fold (streamPathOf (src_client s)).
  destruct (doRequest _ _ _ _ _) as [rb env1] eqn:Hreq.
  intros Hrun.
  assert (Henv : sent env' = sent env1 ∧ tape env' = tape env1).
  { destruct rb as [body|e]; [|by injection Hrun as <- <- <-].
    destruct (json_Unmarshal_imageStream body) as [istream|e];
      [|by injection Hrun as <- <- <-].
    destruct (findTagEvent _ _) as [te|]; [|by injection Hrun as <- <- <-].
    destruct (resolveTagEvent_frame _ _ _ _ _ _ Hrun) as (? & ? & _). done. }
  destruct Henv as [Hsent Htape]. rewrite Hsent, Htape.
  split; [|split; [|by intros [? ?]]].
  - destruct (doRequest_sent _ _ _ _ _ _ _ Hreq)
      as [(e & _ & _ & ->)|(req & _ & _ & Ht & _)]; done.
  - destruct (doRequest_sent _ _ _ _ _ _ _ Hreq)
      as [(e & _ & _ & ->)|(req & Hbuild & Hs & _ & _)].
    + exists []. rewrite app_nil_r. split; [done|].
      split; [simpl; lia|done].
    + exists [req]. split; [done|]. split; [simpl; lia|].
      destruct (buildRequest_fields _ _ _ _ _ Hbuild) as (Hm & Hb & Hu).
      by repeat constructor.
Qed.

(** X8. What resolution does with the tag event it found.  A reference
    [host/rest] makes it open the docker source at
    [//<external host>/<rest>] with the MIME types requested; what the
    docker transport answers decides the outcome.  A reference without
    ['/'] makes it fail with the invalid-format error before the docker
    transport is asked for anything. *)
Theorem ensureImageIsResolved_opens (s : openshiftImageSource D)
    (env env1 : Env W) (body : bytes) (istream : imageStream)
    (te : tagEvent) :
  let c := src_client s in
  src_docker s = None →
  doRequest c "GET" (streamPathOf c) None env = (Ok body, env1) →
  json_Unmarshal_imageStream body = Ok istream →
  findTagEvent (ref_Tag (dockerRef (ref c))) (Tags (is_Status istream))
  = Some te →
  (∀ host rest,
     ("/"%char) ∉ Strings.chars host →
     DockerImageReference te = host +:+ "/" +:+ rest →
     ensureImageIsResolved s env
     = match docker_NewImageSource
               ("//" +:+ Hostname (dockerRef (ref c)) +:+ "/" +:+ rest)
               (requestedManifestMIMETypes s) (world env1) with
       | (Err e, w) => (Some e, s, withWorld env1 w)
       | (Ok d, w) =>
           (None,
            {| src_client := c;
               requestedManifestMIMETypes := requestedManifestMIMETypes s;
               src_docker := Some d;
               src_imageStreamImageName := te_Image te |},
            withWorld env1 w)
       end)
  ∧ (("/"%char) ∉ Strings.chars (DockerImageReference te) →
     ensureImageIsResolved s env
     = (Some ("Invalid format of docker reference "
              +:+ DockerImageReference te +:+ ": missing '/'"), s, env1)).
Proof.
  intros c Hdocker Hget Hdecode Hfound.
  assert (Hunfold : ensureImageIsResolved s env = resolveTagEvent s te env1).
  { unfold ensureImageIsResolved. rewrite Hdocker. fold c.
    fold (streamPathOf c). rewrite Hget, Hdecode, Hfound. done. }
  rewrite Hunfold. unfold resolveTagEvent. fold c. split.
  - intros host rest Hnot ->. rewrite convert_with_separator by done.
    by destruct (docker_NewImageSource _ _ _) as [[d|e] w].
  - intros Hnot. by rewrite convert_without_separator.
Qed.

(** X9. Once a resolution has succeeded, [GetManifest],
    [GetTargetManifest] and [GetBlob] are the methods of the docker
    source and nothing else: no request to the API server, no change of
    the source, no nil dereference. *)
Theorem resolved_source_delegates (s s1 : openshiftImageSource D)
    (env env1 : Env W) :
  ensureImageIsResolved s env = (None, s1, env1) →
  ∃ d, src_docker s1 = Some d
    ∧ ∀ (env2 : Env W) (digest : string),
        GetManifest s1 env2
        = (let '(r, w) := docker_GetManifest d (world env2) in
           (r, s1, withWorld env2 w))
        ∧ GetTargetManifest s1 digest env2
          = (let '(r, w) := docker_GetTargetManifest d digest (world env2) in
             (r, s1, withWorld env2 w))
        ∧ GetBlob s1 digest env2
          = (let '(r, w) := docker_GetBlob d digest (world env2) in
             (r, s1, withWorld env2 w)).
Proof.
  intros Hrun.
  destruct (ensureImageIsResolved_cases _ _ _ _ _ Hrun)
    as (_ & _ & _ & Hok).
  destruct (Hok eq_refl) as [d Hd].
  exists d. split; [done|]. intros env2 digest.
  unfold GetManifest, GetTargetManifest, GetBlob, viaDocker.
  rewrite ensureImageIsResolved_stable, Hd by eauto. done.
Qed.

End SourceFurther.

Section SourceRelease.
Context {W D : Type} `{!Collaborators W D} `{!Transport W D}.

(** X10. [Close] of a source releases the docker source if there is one
    and forgets it: the source is unresolved afterwards (its recorded
    image name is kept), no request goes to the API server, a second
    [Close] does nothing, and neither does a [Close] before any
    resolution. *)
Theorem source_Close_releases (s : openshiftImageSource D) (env : Env W) :
  let s1 := (source_Close s env).1 in
  let env1 := (source_Close s env).2 in
  src_docker s1 = None
  ∧ src_imageStreamImageName s1 = src_imageStreamImageName s
  ∧ src_client s1 = src_client s
  ∧ sent env1 = sent env
  ∧ (∀ env2, source_Close s1 env2 = (s1, env2))
  ∧ (src_docker s = None → s1 = s ∧ env1 = env)
  ∧ (∀ d, src_docker s = Some d →
          world env1 = docker_source_Close d (world env)).
Proof.
  unfold source_Close.
  destruct (src_docker s) as [d|] eqn:Hdocker; simpl.
  - repeat split; try done; by intros d' [= <-].
  - rewrite Hdocker. repeat split; try done; intros env2; by rewrite Hdocker.
Qed.

(** X11. On a resolved source [GetSignatures] fetches the image object
    named by the recorded identifier and returns the contents of its
    signatures of type atomic, in their order and with repetitions;
    signatures of any other type are left out, and the source stays as
    it is. *)
Theorem GetSignatures_atomic (s s' : openshiftImageSource D)
    (env env' : Env W) (got : list bytes) :
  is_Some (src_docker s) →
  GetSignatures s env = (Ok got, s', env') →
  s' = s
  ∧ ∃ image,
      getImage (src_client s) (src_imageStreamImageName s) env
      = (Ok image, env')
      ∧ got = Content <$> filter (λ sig, Type' sig = "atomic")
                            (Signatures image)
      ∧ (∀ c, c ∈ got ↔ ∃ sig, sig ∈ Signatures image
                               ∧ Type' sig = "atomic" ∧ Content sig = c)
      ∧ (List.length got ≤ List.length (Signatures image))%nat.
Proof.
  intros Hresolved. unfold GetSignatures.
  rewrite ensureImageIsResolved_stable by done.
  destruct (getImage _ _ env) as [[image|e] env1]; [|done].
  intros [= <- <- <-]. split; [done|]. exists image.
  split; [done|]. split; [done|]. split.
  - intros c. rewrite list_elem_of_fmap. split.
    + intros (sig & -> & Hin). apply list_elem_of_filter in Hin as [Ht Hin].
      by exists sig.
    + intros (sig & Hin & Ht & <-). exists sig. split; [done|].
      by apply list_elem_of_filter.
  - change (map Content ?l) with (Content <$> l).
    rewrite length_fmap. apply length_filter.
Qed.

End SourceRelease.

(** ** Signature names, continued *)

Lemma goodRead_test (r : randRead) :
  bool_decide (rd_err r ≠ None) || negb (rd_n r =? 16) = false ↔ goodRead r.
Proof.
  unfold goodRead. rewrite orb_false_iff, negb_false_iff, Z.eqb_eq.
  rewrite bool_decide_eq_false. split.
  - intros [Herr Hn]. split; [|done]. by destruct (rd_err r); [destruct Herr|].
  - intros [-> Hn]. split; [|done]. by intros H.
Qed.

Lemma inventName_step (id : string) (known : gset string) (r : randRead)
    (reads : list randRead) :
  inventName id known (r :: reads)
  = if bool_decide (rd_err r ≠ None) || negb (rd_n r =? 16)
    then Some (Err (randomError r), reads)
    else if bool_decide (signatureNameFor id r ∈ known)
         then inventName id known reads
         else Some (Ok (signatureNameFor id r), reads).
Proof. reflexivity. Qed.

Lemma inventName_None (id : string) (known : gset string)
    (reads : list randRead) :
  inventName id known reads = None →
  Forall (λ p, goodRead p ∧ signatureNameFor id p ∈ known) reads.
Proof.
  induction reads as [|r reads IH]; [constructor|].
  rewrite inventName_step.
  destruct (bool_decide _ || negb _) eqn:Htest; [done|].
  apply goodRead_test in Htest. case_bool_decide; [|done].
  intros Hnone. constructor; [done|]. by apply IH.
Qed.

(** X12. The name loop ends at the first read that is not both accepted
    and taken: after reads that all give names already known, an accepted
    read with an unknown name gives that name, and a read that fails or
    is short gives the random-source error (with [<nil>] for a short read
    without error); in both cases exactly the reads up to that one are
    used.  The loop runs out of reads only when every read gives a known
    name. *)
Theorem inventName_stops (id : string) (known : gset string)
    (pre post : list randRead) (r : randRead) :
  Forall (λ p, goodRead p ∧ signatureNameFor id p ∈ known) pre →
  (goodRead r → signatureNameFor id r ∉ known →
     inventName id known (pre ++ r :: post)
     = Some (Ok (signatureNameFor id r), post))
  ∧ (¬ goodRead r →
     inventName id known (pre ++ r :: post)
     = Some (Err (randomError r), post))
  ∧ inventName id known pre = None
  ∧ ∀ reads, inventName id known reads = None →
      Forall (λ p, goodRead p ∧ signatureNameFor id p ∈ known) reads.
Proof.
  intros Hpre.
  cut ((goodRead r → signatureNameFor id r ∉ known →
          inventName id known (pre ++ r :: post)
          = Some (Ok (signatureNameFor id r), post))
       ∧ (¬ goodRead r →
          inventName id known (pre ++ r :: post)
          = Some (Err (randomError r), post))
       ∧ inventName id known pre = None).
  { intros (Ha & Hb & Hc). repeat split; try done. apply inventName_None. }
  induction Hpre as [|p pre [Hgood Hknown] _ IH].
  - split; [|split; [|done]]; simpl app; rewrite inventName_step.
    + intros Hgood Hfresh. apply goodRead_test in Hgood as ->.
      by rewrite bool_decide_eq_false_2.
    + intros Hbad.
      destruct (bool_decide _ || negb _) eqn:Htest; [done|].
      by apply goodRead_test in Htest.
  - change ((p :: pre) ++ r :: post) with (p :: (pre ++ r :: post)).
    rewrite !inventName_step.
    apply goodRead_test in Hgood as ->.
    rewrite bool_decide_eq_true_2 by done. exact IH.
Qed.

Lemma unhex_hexByte (c : ascii) (rest : string) :
  unhex (Strings.hex (String c rest)) = String c (unhex (Strings.hex rest)).
Proof.
  cbn [Strings.hex unhex]. f_equal.
  destruct c as [[] [] [] [] [] [] [] []]; vm_compute; reflexivity.
Qed.

Lemma unhex_hex (b : bytes) : unhex (Strings.hex b) = b.
Proof.
  induction b as [|c b IH]; [done|]. by rewrite unhex_hexByte, IH.
Qed.

Lemma append_inv_head (s t u : string) : s +:+ t = s +:+ u → t = u.
Proof.
  induction s as [|c s IH]; [done|]. intros Heq. apply IH.
  by injection Heq.
Qed.

(** X13. The signature name is an injective function of the sixteen
    random bytes: two reads give the same name for an image exactly when
    they fill the buffer with the same bytes. *)
Theorem signatureNameFor_injective (id : string) (r1 r2 : randRead) :
  signatureNameFor id r1 = signatureNameFor id r2
  ↔ randBytes r1 = randBytes r2.
Proof.
  unfold signatureNameFor. rewrite !fmt_032x_randBytes. split.
  - intros Heq. apply append_inv_head in Heq.
    apply (append_inv_head "@") in Heq.
    by rewrite <- (unhex_hex (randBytes r1)), Heq, unhex_hex.
  - by intros ->.
Qed.

(** ** The requests of the signature synchronizer *)

Lemma inventName_consumes (id : string) (known : gset string)
    (reads reads' : list randRead) (x : result string) :
  inventName id known reads = Some (x, reads') →
  (List.length reads' < List.length reads)%nat.
Proof.
  induction reads as [|r reads IH]; [done|].
  rewrite inventName_step.
  destruct (bool_decide _ || negb _).
  - intros [= <- <-]. simpl. lia.
  - case_bool_decide.
    + intros Hrest. specialize (IH Hrest). simpl. lia.
    + intros [= <- <-]. simpl. lia.
Qed.

Section SynchronizerRequests.
Context {W D : Type} `{!Collaborators W D}.

Lemma putNewSignatures_trace (d : openshiftImageDestination)
    (existing : list imageSignature) (all signatures : list bytes)
    (env env' : Env W) (r : option string) :
  (∀ c, c ∈ signatures → c ∈ all) →
  putNewSignatures d existing (collectSigNames existing) signatures env
  = Some (r, env') →
  (List.length (tape env') ≤ List.length (tape env))%nat
  ∧ ∃ posts, sent env' = sent env ++ posts
      ∧ Forall (signaturePost d all existing) posts.
Proof.
  revert env. induction signatures as [|newSig signatures IH];
    intros env Hall.
  - intros [= <- <-]. split; [done|]. exists []. by rewrite app_nil_r.
  - assert (Hrest : ∀ c, c ∈ signatures → c ∈ all).
    { intros c Hc. apply Hall. by right. }
    simpl. destruct (sigExists existing newSig) eqn:Hexists.
    { by apply IH. }
    destruct (inventName _ _ _) as [[[name|e] reads]|] eqn:Hname; [| |done].
    + pose proof (inventName_consumes _ _ _ _ _ Hname) as Hreads.
      destruct (inventName_sound _ _ _ _ _ Hname) as [Hfresh Hform].
      destruct (doRequest _ _ _ _ _) as [rb env1] eqn:Hpost.
      intros Hrun.
      assert (Hfirst : (List.length (tape env1) ≤ List.length (tape env))%nat
                ∧ ∃ posts, sent env1 = sent env ++ posts
                    ∧ Forall (signaturePost d all existing) posts).
      { destruct (doRequest_sent _ _ _ _ _ _ _ Hpost)
          as [(e & _ & _ & ->)|(req & Hbuild & Hsent & Htape & _)]; simpl in *.
        - split; [lia|]. exists []. by rewrite app_nil_r.
        - split; [rewrite Htape; lia|]. exists [req]. split; [done|].
          destruct (buildRequest_fields _ _ _ _ _ Hbuild) as (Hm & Hb & Hu).
          repeat constructor; try done.
          exists name, newSig. split; [done|]. split; [apply Hall; left|].
          split; [done|]. split; [|done].
          intros sig Hsig Heq. apply Hfresh.
          apply elem_of_collectSigNames. by exists sig. }
      destruct Hfirst as (Htape1 & posts1 & Hsent1 & Hposts1).
      destruct rb as [body|e].
      * destruct (IH _ Hrest Hrun) as (Htape2 & posts2 & Hsent2 & Hposts2).
        split; [lia|]. exists (posts1 ++ posts2).
        rewrite Hsent2, Hsent1, app_assoc. split; [done|].
        by apply Forall_app.
      * injection Hrun as <- <-. split; [done|]. by exists posts1.
    + pose proof (inventName_consumes _ _ _ _ _ Hname) as Hreads.
      intros [= <- <-]. simpl. split; [lia|]. exists [].
      by rewrite app_nil_r.
Qed.

(** X14. Whatever its outcome, [PutSignatures] sends at most one GET for
    the image object, and after it only POSTs to the signature endpoint,
    each creating an atomic signature for a candidate that no fetched
    atomic signature carried, under a name no fetched signature has and
    of the form [<image>@<32 hex digits>]; without the GET there is no
    POST.  It never puts reads back on the random source. *)
Theorem PutSignatures_requests (d : openshiftImageDestination)
    (signatures : list bytes) (env env' : Env W) (r : option string) :
  PutSignatures d signatures env = Some (r, env') →
  let existing :=
    match getImage (dst_client d) (dst_imageStreamImageName d) env with
    | (Ok image, _) => Signatures image
    | (Err _, _) => []
    end in
  (List.length (tape env') ≤ List.length (tape env))%nat
  ∧ ∃ gets posts,
      sent env' = sent env ++ gets ++ posts
      ∧ (List.length gets ≤ 1)%nat
      ∧ Forall (imageRequest (dst_client d) (dst_imageStreamImageName d)) gets
      ∧ Forall (signaturePost d signatures existing) posts
      ∧ (gets = [] → posts = []).
Proof.
  unfold PutSignatures.
  assert (Hnothing : ∀ e : Env W,
    (List.length (tape e) ≤ List.length (tape e))%nat
    ∧ ∃ gets posts : list Request,
        sent e = sent e ++ gets ++ posts
        ∧ (List.length gets ≤ 1)%nat
        ∧ Forall (imageRequest (dst_client d) (dst_imageStreamImageName d))
            gets
        ∧ Forall (signaturePost d signatures
                    match getImage (dst_client d)
                            (dst_imageStreamImageName d) env with
                    | (Ok image, _) => Signatures image
                    | (Err _, _) => []
                    end) posts
        ∧ (gets = [] → posts = [])).
  { intros e. split; [done|]. exists [], []. rewrite app_nil_r.
    repeat split; try done. simpl. lia. }
  destruct (String.eqb _ _); [intros [= <- <-]; apply Hnothing|].
  destruct (List.length signatures =? 0)%nat;
    [intros [= <- <-]; apply Hnothing|].
  destruct (getImage _ _ env) as [[image|e] envg] eqn:Hget.
  - intros Hrun. simpl.
    destruct (getImage_request _ _ _ _ _ Hget)
      as (Htape & gets & Hsent & Hgets & Hlen & Hone).
    destruct (putNewSignatures_trace d (Signatures image) signatures
                signatures envg env' r (λ c H, H) Hrun)
      as (Htape2 & posts & Hsent2 & Hposts).
    split; [rewrite <- Htape; lia|]. exists gets, posts.
    rewrite Hsent2, Hsent, app_assoc. repeat split; try done.
    intros ->. specialize (Hone eq_refl). done.
  - intros [= <- <-]. simpl.
    destruct (getImage_request _ _ _ _ _ Hget)
      as (Htape & gets & Hsent & Hgets & Hlen & _).
    split; [rewrite Htape; lia|]. exists gets, []. rewrite app_nil_r.
    repeat split; try done.
Qed.

Lemma putNewSignatures_success (d : openshiftImageDestination)
    (existing : list imageSignature) (names : gset string)
    (signatures : list bytes) (env env' : Env W) :
  putNewSignatures d existing names signatures env = Some (None, env') →
  let candidates :=
    filter (λ c, sigExists existing c = false) signatures in
  ∃ posts minted,
    sent env' = sent env ++ posts
    ∧ List.length minted = List.length candidates
    ∧ req_Body <$> posts
      = zip_with (λ name content,
                    Some (json_Marshal_imageSignature
                            (newImageSignature name content)))
          minted candidates
    ∧ Forall (λ req, Method req = "POST") posts
    ∧ (List.length (tape env') + List.length candidates
       ≤ List.length (tape env))%nat.
Proof.
  revert env. induction signatures as [|newSig signatures IH]; intros env.
  - intros [= <-]. exists [], []. rewrite app_nil_r. simpl.
    repeat split; try done. lia.
  - simpl putNewSignatures.
    destruct (sigExists existing newSig) eqn:Hexists.
    { rewrite filter_cons_False by (by rewrite Hexists). apply IH. }
    rewrite filter_cons_True by done.
    destruct (inventName _ _ _) as [[[name|e] reads]|] eqn:Hname;
      [|done|done].
    pose proof (inventName_consumes _ _ _ _ _ Hname) as Hreads.
    destruct (doRequest _ _ _ _ _) as [[body|e] env1] eqn:Hpost; [|done].
    intros Hrun.
    destruct (IH _ Hrun) as (posts & minted & Hsent & Hlen & Hbodies
                             & Hmethods & Htape).
    destruct (doRequest_sent _ _ _ _ _ _ _ Hpost)
      as [(e & _ & [=] & _)|(req & Hbuild & Hsent1 & Htape1 & _)].
    destruct (buildRequest_fields _ _ _ _ _ Hbuild) as (Hm & Hb & _).
    simpl in Htape1.
    exists (req :: posts), (name :: minted).
    rewrite Hsent, Hsent1, <- app_assoc. simpl.
    repeat split; try done.
    + by rewrite Hlen.
    + rewrite Hb. f_equal. exact Hbodies.
    + by constructor.
    + rewrite Htape1 in Htape. simpl in *. lia.
Qed.

(** X15. A [PutSignatures] of at least one signature that succeeds has
    fetched the image and then sent exactly one POST per candidate that
    no fetched atomic signature carried, in the order of the candidates
    (a candidate listed twice is posted twice), each with the signature
    object of that candidate as body; every POST cost at least one read
    of the random source. *)
Theorem PutSignatures_success_posts (d : openshiftImageDestination)
    (signatures : list bytes) (env env' : Env W) :
  PutSignatures d signatures env = Some (None, env') →
  signatures ≠ [] →
  ∃ image envg get posts minted,
    getImage (dst_client d) (dst_imageStreamImageName d) env
    = (Ok image, envg)
    ∧ sent env' = sent env ++ get :: posts
    ∧ imageRequest (dst_client d) (dst_imageStreamImageName d) get
    ∧ Forall (λ req, Method req = "POST") posts
    ∧ let candidates :=
        filter (λ c, sigExists (Signatures image) c = false) signatures in
      List.length minted = List.length candidates
      ∧ req_Body <$> posts
        = zip_with (λ name content,
                      Some (json_Marshal_imageSignature
                              (newImageSignature name content)))
            minted candidates
      ∧ (List.length (tape env') + List.length candidates
         ≤ List.length (tape env))%nat.
Proof.
  unfold PutSignatures. intros Hrun Hne.
  destruct (String.eqb _ _); [done|].
  destruct signatures as [|newSig signatures]; [done|].
  set (candidates := newSig :: signatures) in *.
  change (List.length candidates =? 0)%nat with false in Hrun.
  cbv iota in Hrun.
  destruct (getImage _ _ env) as [[image|e] envg] eqn:Hget; [|done].
  destruct (getImage_request _ _ _ _ _ Hget)
    as (Htape & gets & Hsent & Hgets & Hlen & Hone).
  specialize (Hone eq_refl).
  destruct gets as [|get [|? ?]]; try done.
  destruct (putNewSignatures_success _ _ _ _ _ _ Hrun)
    as (posts & minted & Hsent2 & Hlen2 & Hbodies & Hmethods & Htape2).
  exists image, envg, get, posts, minted.
  split; [done|]. rewrite Hsent2, Hsent, <- app_assoc.
  split; [done|]. split; [by inversion Hgets|]. split; [done|].
  simpl. repeat split; try done. rewrite <- Htape. exact Htape2.
Qed.

End SynchronizerRequests.

(** ** Construction of clients and destinations *)

Section ConstructionProperties.
Context {W D : Type} `{!Collaborators W D} `{!Transport W D}.

Lemma newOpenshiftClient_inv (r : openshiftReference) (c : openshiftClient) :
  newOpenshiftClient r = Ok c →
  ∃ rc, cmdConfig_ClientConfig = Ok rc
    ∧ restClientFor rc = Ok (baseURL c)
    ∧ ref c = r
    ∧ bearerToken c = cfg_BearerToken rc
    ∧ username c = cfg_Username rc
    ∧ password c = cfg_Password rc.
Proof.
  unfold newOpenshiftClient.
  destruct cmdConfig_ClientConfig as [rc|e]; [|done].
  destruct (restClientFor rc) as [base|e] eqn:Hbase; [|done].
  intros [= <-]. exists rc. by rewrite Hbase.
Qed.

(** X16. A client made by [newOpenshiftClient] serves the reference it
    was made for.  Whenever [http.NewRequest] accepts the method and the
    URL, [doRequest] on it sends one request, to the base URL of the
    cluster configuration with its path replaced by the path of the
    call, and with the credentials of that configuration: the bearer
    token when there is one, whatever user name and password are
    configured besides. *)
Theorem newOpenshiftClient_requests (r : openshiftReference)
    (c : openshiftClient) (method path : string) (body : option bytes)
    (env : Env W) :
  newOpenshiftClient r = Ok c →
  http_NewRequest_error method
    {| url_base := url_base (baseURL c); Path := path |} = None →
  ∃ rc base req,
    cmdConfig_ClientConfig = Ok rc
    ∧ restClientFor rc = Ok base
    ∧ ref c = r
    ∧ sent (doRequest c method path body env).2 = sent env ++ [req]
    ∧ req_URL req = {| url_base := url_base base; Path := path |}
    ∧ Header req !! "Authorization"
      = if decide (cfg_BearerToken rc ≠ "")
        then Some ["Bearer " +:+ cfg_BearerToken rc]
        else if decide (cfg_Username rc ≠ "")
             then Some ["Basic " +:+ http_basicAuth (cfg_Username rc)
                                       (cfg_Password rc)]
             else None.
Proof.
  intros Hclient Hnew.
  destruct (newOpenshiftClient_inv _ _ Hclient)
    as (rc & Hrc & Hbase & Href & Htok & Huser & Hpass).
  destruct (buildRequest_Ok c method path body Hnew) as [req Hbuild].
  destruct (buildRequest_fields _ _ _ _ _ Hbuild) as (_ & _ & Hurl).
  exists rc, (baseURL c), req.
  split; [done|]. split; [done|]. split; [done|].
  split; [by apply doRequest_sends|]. split; [done|].
  rewrite <- Htok, <- Huser, <- Hpass.
  by eapply buildRequest_Authorization.
Qed.

(** X17. [newImageDestination] opens the docker destination at
    [//<host>/<namespace>/<stream>:<tag>] of the reference and sends
    nothing to the API server.  The destination it returns has no
    content identifier: [PutSignatures] on it fails with the
    unknown-digest error, and it stays so through every [PutManifest]
    whose digest cannot be computed. *)
Theorem newImageDestination_locked (r : openshiftReference)
    (env env' : Env W) (d : openshiftImageDestination) :
  newImageDestination r env = (Ok d, env') →
  ref (dst_client d) = r
  ∧ sent env' = sent env ∧ tape env' = tape env
  ∧ docker_NewImageDestination
      ("//" +:+ Hostname (dockerRef r) +:+ "/" +:+ namespace r +:+ "/"
       +:+ stream r +:+ ":" +:+ ref_Tag (dockerRef r)) (world env)
    = (None, world env')
  ∧ ∀ (manifests : list bytes) (signatures : list bytes) (env2 : Env W),
      Forall (λ m, isOk (manifest_Digest m) = false) manifests →
      let after :=
        foldl (λ st m, let '(_, d, env) := PutManifest st.1 m st.2 in
                       (d, env))
          (d, env2) manifests in
      after = (d, env2)
      ∧ PutSignatures after.1 signatures after.2
        = Some (Some "Internal error: Unknown manifest digest, can't add signatures",
                env2).
Proof.
  unfold newImageDestination. intros Hnew.
  destruct (newOpenshiftClient r) as [c|e] eqn:Hclient; [|done].
  destruct (newOpenshiftClient_inv _ _ Hclient) as (_ & _ & _ & Href & _).
  rewrite Href in Hnew.
  destruct (docker_NewImageDestination _ _) as [[e|] w] eqn:Hopen; [done|].
  injection Hnew as <- <-. simpl.
  split; [done|]. split; [done|]. split; [done|]. split; [done|].
  intros manifests signatures env2 Hfail.
  assert (Hfold : foldl (λ st m, let '(_, d, env) := PutManifest st.1 m st.2 in
                                 (d, env))
                    ({| dst_client := c; dst_imageStreamImageName := "" |},
                     env2) manifests
                  = ({| dst_client := c; dst_imageStreamImageName := "" |},
                     env2)).
  { induction Hfail as [|m manifests Hm _ IH]; [done|].
    simpl. unfold PutManifest at 2.
    destruct (manifest_Digest m); [done|]. exact IH. }
  simpl. rewrite Hfold. done.
Qed.

End ConstructionProperties.

(** ** Writing and reading signatures *)

Section SignatureRoundTrip.
Context {W D : Type} `{!Collaborators W D}.

Variable stored : W → list imageSignature.
Variable d : openshiftImageDestination.
Variable s : openshiftImageSource D.

Hypothesis same_client : src_client s = dst_client d.
Hypothesis same_image :
  src_imageStreamImageName s = dst_imageStreamImageName d.
Hypothesis resolved : is_Some (src_docker s).

Hypothesis get_reads : ∀ (env env' : Env W) (r : result image),
  getImage (dst_client d) (dst_imageStreamImageName d) env = (r, env') →
  stored (world env') = stored (world env)
  ∧ ∀ image, r = Ok image → Signatures image = stored (world env).

Hypothesis post_appends : ∀ (env env' : Env W) (name : string)
    (content body : bytes),
  doRequest (dst_client d) "POST" "/oapi/v1/imagesignatures"
    (Some (json_Marshal_imageSignature (newImageSignature name content))) env
  = (Ok body, env') →
  ∃ sig, stored (world env') = stored (world env) ++ [sig]
         ∧ Type' sig = imageSignatureTypeAtomic ∧ Content sig = content.

Lemma added_atomic (added : list imageSignature) (candidates : list bytes) :
  (λ sig, (Type' sig, Content sig)) <$> added
  = (λ c, (imageSignatureTypeAtomic, c)) <$> candidates →
  filter (λ sig, Type' sig = "atomic") added = added
  ∧ Content <$> added = candidates.
Proof.
  revert candidates. induction added as [|sig added IH];
    intros [|c candidates]; try done.
  rewrite !fmap_cons. intros [= Ht Hc Hrest].
  destruct (IH _ Hrest) as [Hfilter Hcontent].
  rewrite filter_cons_True by done. by rewrite Hfilter, Hcontent, Hc.
Qed.

(** X18. Signatures written are signatures read.  With an API server
    that shows the signatures it holds and keeps every signature whose
    creation succeeded, a [GetSignatures] on the same image after a
    [PutSignatures] that succeeded returns the contents of the atomic
    signatures held before, followed by the candidates that none of them
    carried, in the order given. *)
Theorem PutSignatures_GetSignatures (signatures got : list bytes)
    (env env1 env2 : Env W) (s' : openshiftImageSource D) :
  PutSignatures d signatures env = Some (None, env1) →
  GetSignatures s env1 = (Ok got, s', env2) →
  got = (Content <$> filter (λ sig, Type' sig = "atomic")
                       (stored (world env)))
        ++ filter (λ c, sigExists (stored (world env)) c = false) signatures
  ∧ ∀ c, c ∈ signatures → c ∈ got.
Proof.
  intros Hput Hget.
  assert (Hstored : ∃ added,
            stored (world env1) = stored (world env) ++ added
            ∧ (λ sig, (Type' sig, Content sig)) <$> added
              = (λ c, (imageSignatureTypeAtomic, c))
                <$> filter (λ c, sigExists (stored (world env)) c = false)
                      signatures).
  { revert Hput. unfold PutSignatures.
    destruct (String.eqb _ _); [done|].
    destruct signatures as [|newSig rest].
    { intros [= <-]. exists []. by rewrite app_nil_r. }
    set (candidates := newSig :: rest).
    change (List.length candidates =? 0)%nat with false. cbv iota.
    destruct (getImage _ _ env) as [[image|e] envg] eqn:Himage; [|done].
    destruct (get_reads _ _ _ Himage) as [Hsame Hshown].
    intros Hrun.
    destruct (putNewSignatures_adds stored d post_appends _ _ _ _ _ Hrun)
      as (added & Hadd & Hadded).
    exists added. by rewrite Hadd, Hsame, <- (Hshown image eq_refl). }
  destruct Hstored as (added & Hadd & Hadded).
  destruct (added_atomic _ _ Hadded) as [Hfilter Hcontent].
  assert (Hgot : got = Content <$> filter (λ sig, Type' sig = "atomic")
                                     (stored (world env1))).
  { revert Hget. unfold GetSignatures.
    rewrite ensureImageIsResolved_stable by done.
    rewrite same_client, same_image.
    destruct (getImage _ _ env1) as [[image|e] envg] eqn:Himage; [|done].
    destruct (get_reads _ _ _ Himage) as [_ Hshown].
    intros [= <- _ _]. by rewrite (Hshown image eq_refl). }
  assert (Heq : got
    = (Content <$> filter (λ sig, Type' sig = "atomic") (stored (world env)))
      ++ filter (λ c, sigExists (stored (world env)) c = false) signatures).
  { by rewrite Hgot, Hadd, filter_app, fmap_app, Hfilter, Hcontent. }
  split; [done|]. intros c Hc. rewrite Heq. apply elem_of_app.
  destruct (sigExists (stored (world env)) c) eqn:Hexists.
  - left. apply sigExists_iff in Hexists as (sig & Hin & Ht & <-).
    apply list_elem_of_fmap. exists sig. split; [done|].
    by apply list_elem_of_filter.
  - right. by apply list_elem_of_filter.
Qed.

End SignatureRoundTrip.

(** ** The manifest-list selector, continued *)

Module ManifestListFurther.
Import ManifestList.

Section Selection.
Variables GOARCH GOOS : string.

Abbreviation matching d :=
  (Architecture (Platform d) = GOARCH ∧ OS (Platform d) = GOOS).

Lemma matchesPlatform_true (d : manifestDescriptor) :
  matchesPlatform GOARCH GOOS d = true ↔ matching d.
Proof.
  unfold matchesPlatform. by rewrite andb_true_iff, !String.eqb_eq.
Qed.

Lemma selectDigest_cases (ds : list manifestDescriptor) :
  (Forall (λ p, ¬ matching p) ds ∧ selectDigest GOARCH GOOS ds = "")
  ∨ ∃ pre d post, ds = pre ++ d :: post
      ∧ Forall (λ p, ¬ matching p) pre ∧ matching d
      ∧ selectDigest GOARCH GOOS ds = Digest (md_descriptor d).
Proof.
  induction ds as [|d ds IH]; [by left|]. simpl.
  destruct (matchesPlatform GOARCH GOOS d) eqn:Hd.
  - right. exists [], d, ds. split; [done|]. split; [constructor|].
    split; [by apply matchesPlatform_true|done].
  - assert (Hnot : ¬ matching d).
    { intros Hm. apply matchesPlatform_true in Hm. congruence. }
    destruct IH as [[Hall Hnone]|(pre & d' & post & -> & Hpre & Hd' & Hsel)].
    + left. split; [by constructor|done].
    + right. exists (d :: pre), d', post. split; [done|].
      split; [by constructor|]. by split.
Qed.

Lemma selectDigest_key (ds1 ds2 : list manifestDescriptor) :
  selectionKey <$> ds1 = selectionKey <$> ds2 →
  selectDigest GOARCH GOOS ds1 = selectDigest GOARCH GOOS ds2.
Proof.
  revert ds2. induction ds1 as [|d1 ds1 IH]; intros [|d2 ds2]; try done.
  rewrite !fmap_cons. unfold selectionKey at 1 2.
  intros [= Harch Hos Hdigest Hrest]. simpl.
  unfold matchesPlatform. rewrite Harch, Hos, Hdigest.
  destruct (_ && _); [done|]. by apply IH.
Qed.

Variables (S genericManifest : Type).
Variable json_Unmarshal_manifestList : bytes → result manifestList.
Variable GetTargetManifest : string → S → result (bytes * string) * S.
Variable manifestInstanceFromBlob :
  bytes → string → S → result genericManifest * S.

Abbreviation selector := (manifestSchema2FromManifestList GOARCH GOOS S
  genericManifest json_Unmarshal_manifestList GetTargetManifest
  manifestInstanceFromBlob).

Abbreviation fetch := (fetchManifest S genericManifest GetTargetManifest
  manifestInstanceFromBlob).

(** X19. The selector never asks for the manifest of another platform.
    On a list that decodes, either it fails with the
    no-supported-platform error without touching the source (no
    descriptor is of the running platform, or the first that is has an
    empty digest), or it fetches the digest of the first descriptor of
    the running platform and nothing else decides its result. *)
Theorem manifestSchema2FromManifestList_cases (manblob : bytes)
    (list : manifestList) (st : S) :
  json_Unmarshal_manifestList manblob = Ok list →
  (selector manblob st
   = (Err "no supported platform found in manifest list", st)
   ∧ (Forall (λ p, ¬ matching p) (Manifests list)
      ∨ ∃ pre d post, Manifests list = pre ++ d :: post
          ∧ Forall (λ p, ¬ matching p) pre ∧ matching d
          ∧ Digest (md_descriptor d) = ""))
  ∨ ∃ pre d post, Manifests list = pre ++ d :: post
      ∧ Forall (λ p, ¬ matching p) pre ∧ matching d
      ∧ Digest (md_descriptor d) ≠ ""
      ∧ selector manblob st = fetch (Digest (md_descriptor d)) st.
Proof.
  intros Hdecode. unfold manifestSchema2FromManifestList. rewrite Hdecode.
  destruct (selectDigest_cases (Manifests list))
    as [[Hall ->]|(pre & d & post & Hlist & Hpre & Hd & ->)].
  - left. split; [done|]. by left.
  - destruct (String.eqb_spec (Digest (md_descriptor d)) "") as [Hempty|Hne].
    + left. split; [done|]. right. by exists pre, d, post.
    + right. by exists pre, d, post.
Qed.

(** X20. Of every descriptor only the architecture, the OS and the
    digest matter: two manifest lists whose descriptors agree on these
    three, position by position, give the same result, whatever their
    other fields (media types, sizes, variants, features, versions)
    are. *)
Theorem manifestSchema2FromManifestList_key (blob1 blob2 : bytes)
    (list1 list2 : manifestList) (st : S) :
  json_Unmarshal_manifestList blob1 = Ok list1 →
  json_Unmarshal_manifestList blob2 = Ok list2 →
  selectionKey <$> Manifests list1 = selectionKey <$> Manifests list2 →
  selector blob1 st = selector blob2 st.
Proof.
  intros Hd1 Hd2 Hkeys. unfold manifestSchema2FromManifestList.
  by rewrite Hd1, Hd2, (selectDigest_key _ _ Hkeys).
Qed.

End Selection.

End ManifestListFurther.

(** * Instances of the further properties *)

Lemma doRequest_upgrade_success_witness :
  (@doRequest _ _ (Scripted.collaborators Registry.upgrade) Scripted.client
     "GET" Scripted.streamPath None Scripted.env0).1
  = Ok "upgrade".
Proof.
  apply (@doRequest_upgrade_success _ _
           (Scripted.collaborators Registry.upgrade) Scripted.client "GET"
           Scripted.streamPath None Scripted.env0
           (Scripted.request Registry.upgrade Scripted.client "GET"
              Scripted.streamPath None)
           {| StatusCode := 101; resp_Body := Ok "upgrade" |} tt "upgrade");
    try reflexivity.
  intros st Hst. discriminate Hst.
Defined.

Lemma doRequest_success_inv_witness :
  ∃ req res,
    @buildRequest _ _ (Scripted.collaborators Registry.quiet) Scripted.client
      "GET" Scripted.streamPath None = Ok req
    ∧ @httpClient_Do _ _ (Scripted.collaborators Registry.quiet) req tt
      = (Ok res, tt)
    ∧ resp_Body res = Ok ""
    ∧ (StatusCode res = 101 ∨ 200 ≤ StatusCode res ≤ 206).
Proof.
  exact (@doRequest_success_inv _ _ (Scripted.collaborators Registry.quiet)
           Scripted.client "GET" Scripted.streamPath None Scripted.env0
           (@doRequest _ _ (Scripted.collaborators Registry.quiet)
              Scripted.client "GET" Scripted.streamPath None
              Scripted.env0).2
           "" eq_refl).
Defined.

Lemma doRequest_request_witness :
  ∃ req,
    sent (@doRequest _ _ (Scripted.collaborators Registry.quiet)
            Registry.client0 "POST" "/oapi/v1/imagesignatures" (Some "{}")
            Scripted.env0).2
    = [req]
    ∧ Method req = "POST"
    ∧ url_base (req_URL req) = "https://api.example.com:8443"
    ∧ Path (req_URL req) = "/oapi/v1/imagesignatures"
    ∧ req_Body req = Some "{}"
    ∧ Header req !! "Accept" = Some ["application/json, */*"]
    ∧ Header req !! "User-Agent" = Some ["skopeo/0.1.0"]
    ∧ Header req !! "Content-Type" = Some ["application/json"].
Proof.
  exact (@doRequest_request _ _ (Scripted.collaborators Registry.quiet)
           Registry.client0 "POST" "/oapi/v1/imagesignatures" (Some "{}")
           Scripted.env0 eq_refl).
Defined.

Lemma convertDockerImageReference_idempotent_witness :
  convertDockerImageReference Scripted.client "registry.example.com/ns/app"
  = Ok "registry.example.com/ns/app"
  ∧ ∀ host host' rest,
      ("/"%char) ∉ Strings.chars host → ("/"%char) ∉ Strings.chars host' →
      "172.30.1.1:5000/ns/app" = host +:+ "/" +:+ rest →
      convertDockerImageReference Scripted.client (host' +:+ "/" +:+ rest)
      = Ok "registry.example.com/ns/app".
Proof.
  apply (convertDockerImageReference_idempotent Scripted.client
           "172.30.1.1:5000/ns/app" "registry.example.com/ns/app");
    [|reflexivity].
  apply (bool_decide_unpack _). vm_compute. exact I.
Defined.

Lemma ensureImageIsResolved_state_witness :
  src_client Registry.resolution.1.2 = src_client Scripted.source
  ∧ requestedManifestMIMETypes Registry.resolution.1.2
    = requestedManifestMIMETypes Scripted.source
  ∧ (is_Some Registry.resolution.1.1
     → Registry.resolution.1.2 = Scripted.source)
  ∧ (Registry.resolution.1.1 = None →
       is_Some (src_docker Registry.resolution.1.2)
       ∧ ∀ env2,
           @ensureImageIsResolved _ _
             (Scripted.collaborators
                (Scripted.streamScript [Scripted.other; Scripted.latest]))
             Registry.resolution.1.2 env2
           = (None, Registry.resolution.1.2, env2)).
Proof.
  exact (@ensureImageIsResolved_state _ _
           (Scripted.collaborators
              (Scripted.streamScript [Scripted.other; Scripted.latest]))
           Scripted.source Registry.resolution.1.2 Scripted.env0
           Registry.resolution.2 Registry.resolution.1.1 eq_refl).
Defined.

Lemma ensureImageIsResolved_request_witness :
  tape Registry.resolution.2 = tape Scripted.env0
  ∧ (∃ new, sent Registry.resolution.2 = sent Scripted.env0 ++ new
       ∧ (List.length new ≤ 1)%nat
       ∧ Forall (streamRequest (src_client Scripted.source)) new)
  ∧ (is_Some (src_docker Scripted.source)
     → Registry.resolution.2 = Scripted.env0).
Proof.
  exact (@ensureImageIsResolved_request _ _
           (Scripted.collaborators
              (Scripted.streamScript [Scripted.other; Scripted.latest]))
           Scripted.source Registry.resolution.1.2 Scripted.env0
           Registry.resolution.2 Registry.resolution.1.1 eq_refl).
Defined.

Lemma ensureImageIsResolved_opens_witness :
  Registry.resolution.1.2
  = {| src_client := Scripted.client;
       requestedManifestMIMETypes := [];
       src_docker := Some "//registry.example.com/ns/app@sha256:02";
       src_imageStreamImageName := "sha256:02" |}.
Proof.
  assert (Hhost : ("/"%char) ∉ Strings.chars "172.30.1.1:5000").
  { apply (bool_decide_unpack _). vm_compute. exact I. }
  exact (f_equal (λ x, x.1.2)
           (proj1 (@ensureImageIsResolved_opens _ _
              (Scripted.collaborators
                 (Scripted.streamScript [Scripted.other; Scripted.latest]))
              Scripted.source Scripted.env0
              (@doRequest _ _
                 (Scripted.collaborators
                    (Scripted.streamScript
                       [Scripted.other; Scripted.latest]))
                 Scripted.client "GET" Scripted.streamPath None
                 Scripted.env0).2
              "{}"
              {| is_Status :=
                   {| DockerImageRepository := "172.30.1.1:5000/ns/app";
                      Tags := [Scripted.other; Scripted.latest] |} |}
              (Scripted.event "sha256:02")
              eq_refl eq_refl eq_refl eq_refl)
              "172.30.1.1:5000" "ns/app@sha256:02" Hhost eq_refl)).
Defined.

Lemma resolved_source_delegates_witness :
  (@GetManifest _ _
     (Scripted.collaborators
        (Scripted.streamScript [Scripted.other; Scripted.latest]))
     Registry.transport Registry.resolution.1.2 Scripted.env0).1.1
  = Ok ("manifest of //registry.example.com/ns/app@sha256:02",
        DockerV2Schema1MediaType).
Proof.
  destruct (@resolved_source_delegates _ _
              (Scripted.collaborators
                 (Scripted.streamScript [Scripted.other; Scripted.latest]))
              Registry.transport Scripted.source Registry.resolution.1.2
              Scripted.env0 Registry.resolution.2 eq_refl)
    as (d & Hd & Hall).
  rewrite (proj1 (Hall Scripted.env0 "")).
  change (Some "//registry.example.com/ns/app@sha256:02" = Some d) in Hd.
  injection Hd as <-. reflexivity.
Defined.

Lemma GetSignatures_atomic_witness :
  Registry.resolved = Registry.resolved
  ∧ ∃ image,
      @getImage _ _ Store.collaborators Scripted.client "sha256:0a"
        Registry.before
      = (Ok image,
         (@GetSignatures _ _ Store.collaborators Registry.resolved
            Registry.before).2)
      ∧ ["sig-0"] = Content <$> filter (λ sig, Type' sig = "atomic")
                                  (Signatures image)
      ∧ (∀ c, c ∈ ["sig-0"] ↔ ∃ sig, sig ∈ Signatures image
                                      ∧ Type' sig = "atomic"
                                      ∧ Content sig = c)
      ∧ (List.length ["sig-0"] ≤ List.length (Signatures image))%nat.
Proof.
  exact (@GetSignatures_atomic _ _ Store.collaborators Registry.resolved
           Registry.resolved Registry.before
           (@GetSignatures _ _ Store.collaborators Registry.resolved
              Registry.before).2
           ["sig-0"] (ex_intro _ _ eq_refl) eq_refl).
Defined.

Lemma inventName_stops_witness :
  inventName "abc"
    (collectSigNames
       [newImageSignature "abc@11111111111111111111111111111111" "old"])
    ([Store.read16 byte11]
     ++ Store.read16 "a" :: [Store.read16 "b"])
  = Some (Ok (signatureNameFor "abc" (Store.read16 "a")),
          [Store.read16 "b"]).
Proof.
  apply (proj1 (inventName_stops "abc"
           (collectSigNames
              [newImageSignature "abc@11111111111111111111111111111111"
                 "old"])
           [Store.read16 byte11] [Store.read16 "b"] (Store.read16 "a")
           ltac:(constructor; [split; [split; reflexivity|]|constructor];
                 apply (bool_decide_unpack _); vm_compute; exact I))).
  - split; reflexivity.
  - apply (bool_decide_unpack _). vm_compute. exact I.
Defined.

Lemma PutSignatures_requests_witness :
  (List.length (tape Registry.outcome.2)
   ≤ List.length (tape Registry.before))%nat
  ∧ ∃ gets posts,
      sent Registry.outcome.2 = sent Registry.before ++ gets ++ posts
      ∧ (List.length gets ≤ 1)%nat
      ∧ Forall (imageRequest Scripted.client "sha256:0a") gets
      ∧ Forall (@signaturePost _ _ Store.collaborators Store.destination
                  Registry.candidates
                  (Store.stored [("sha256:0a@old", "sig-0")])) posts
      ∧ (gets = [] → posts = []).
Proof.
  exact (@PutSignatures_requests _ _ Store.collaborators Store.destination
           Registry.candidates Registry.before Registry.outcome.2
           Registry.outcome.1 eq_refl).
Defined.

Lemma PutSignatures_success_posts_witness :
  ∃ image envg get posts minted,
    @getImage _ _ Store.collaborators Scripted.client "sha256:0a"
      Registry.before
    = (Ok image, envg)
    ∧ sent Registry.outcome.2 = sent Registry.before ++ get :: posts
    ∧ imageRequest Scripted.client "sha256:0a" get
    ∧ Forall (λ req, Method req = "POST") posts
    ∧ List.length minted
      = List.length (filter (λ c, sigExists (Signatures image) c = false)
                       Registry.candidates)
    ∧ req_Body <$> posts
      = zip_with (λ name content,
                    Some (@json_Marshal_imageSignature _ _
                            Store.collaborators
                            (newImageSignature name content)))
          minted
          (filter (λ c, sigExists (Signatures image) c = false)
             Registry.candidates)
    ∧ (List.length (tape Registry.outcome.2)
       + List.length (filter (λ c, sigExists (Signatures image) c = false)
                        Registry.candidates)
       ≤ List.length (tape Registry.before))%nat.
Proof.
  exact (@PutSignatures_success_posts _ _ Store.collaborators
           Store.destination Registry.candidates Registry.before
           Registry.outcome.2 eq_refl ltac:(discriminate)).
Defined.

Lemma newOpenshiftClient_requests_witness :
  ∃ req,
    sent (@doRequest _ _ (Scripted.collaborators Registry.quiet)
            Registry.client0 "GET" Scripted.streamPath None
            Scripted.env0).2
    = [req]
    ∧ req_URL req = {| url_base := "https://api.example.com:8443";
                       Path := Scripted.streamPath |}
    ∧ Header req !! "Authorization" = Some ["Bearer t0ken"].
Proof.
  destruct (@newOpenshiftClient_requests unit string
              (Scripted.collaborators Registry.quiet) Registry.transport
              Registry.reference Registry.client0 "GET" Scripted.streamPath
              None Scripted.env0 eq_refl eq_refl)
    as (rc & base & req & Hrc & Hbase & _ & Hsent & Hurl & Hauth).
  change (Ok Registry.config = Ok rc) in Hrc. injection Hrc as <-.
  change (Ok {| url_base := "https://api.example.com:8443";
                Path := "/prefix" |} = Ok base) in Hbase.
  injection Hbase as <-.
  exists req. split; [exact Hsent|]. split; [exact Hurl|]. exact Hauth.
Defined.

Lemma newImageDestination_locked_witness :
  ref (dst_client (newDestination Registry.client0)) = Registry.reference
  ∧ @PutSignatures _ _ (Scripted.collaborators Registry.quiet)
      (newDestination Registry.client0) ["sig-1"] Scripted.env0
    = Some (Some "Internal error: Unknown manifest digest, can't add signatures",
            Scripted.env0).
Proof.
  destruct (@newImageDestination_locked unit string
              (Scripted.collaborators Registry.quiet) Registry.transport
              Registry.reference Scripted.env0 Scripted.env0
              (newDestination Registry.client0) eq_refl)
    as (Href & _ & _ & _ & Hlocked).
  split; [exact Href|].
  exact (proj2 (Hlocked ["{}"; "{}"] ["sig-1"] Scripted.env0
                  ltac:(repeat constructor))).
Defined.

Lemma PutSignatures_GetSignatures_witness :
  Registry.candidates
  = (Content <$> filter (λ sig, Type' sig = "atomic")
                   (Store.stored (world Registry.before)))
    ++ filter (λ c, sigExists (Store.stored (world Registry.before)) c
                    = false) Registry.candidates
  ∧ ∀ c, c ∈ Registry.candidates → c ∈ Registry.candidates.
Proof.
  exact (@PutSignatures_GetSignatures _ _ Store.collaborators Store.stored
           Store.destination Registry.resolved eq_refl eq_refl
           (ex_intro _ _ eq_refl) Store_get_reads Store_post_appends
           Registry.candidates Registry.candidates Registry.before
           Registry.outcome.2
           (@GetSignatures _ _ Store.collaborators Registry.resolved
              Registry.outcome.2).2
           Registry.resolved eq_refl eq_refl).
Defined.

Lemma manifestSchema2FromManifestList_cases_witness :
  (ManifestList.Double.select
     [ManifestList.Double.entry "arm64" "linux" "sha256:aa";
      ManifestList.Double.entry "amd64" "linux" "sha256:bb"]
   = (Err "no supported platform found in manifest list", [])
   ∧ (Forall (λ p, ¬ (ManifestList.Architecture (ManifestList.Platform p)
                      = "amd64"
                      ∧ ManifestList.OS (ManifestList.Platform p) = "linux"))
        [ManifestList.Double.entry "arm64" "linux" "sha256:aa";
         ManifestList.Double.entry "amd64" "linux" "sha256:bb"]
      ∨ ∃ pre d post,
          [ManifestList.Double.entry "arm64" "linux" "sha256:aa";
           ManifestList.Double.entry "amd64" "linux" "sha256:bb"]
          = pre ++ d :: post
          ∧ Forall (λ p, ¬ (ManifestList.Architecture
                              (ManifestList.Platform p) = "amd64"
                            ∧ ManifestList.OS (ManifestList.Platform p)
                              = "linux")) pre
          ∧ (ManifestList.Architecture (ManifestList.Platform d) = "amd64"
             ∧ ManifestList.OS (ManifestList.Platform d) = "linux")
          ∧ ManifestList.Digest (ManifestList.md_descriptor d) = ""))
  ∨ ∃ pre d post,
      [ManifestList.Double.entry "arm64" "linux" "sha256:aa";
       ManifestList.Double.entry "amd64" "linux" "sha256:bb"]
      = pre ++ d :: post
      ∧ Forall (λ p, ¬ (ManifestList.Architecture (ManifestList.Platform p)
                        = "amd64"
                        ∧ ManifestList.OS (ManifestList.Platform p)
                          = "linux")) pre
      ∧ (ManifestList.Architecture (ManifestList.Platform d) = "amd64"
         ∧ ManifestList.OS (ManifestList.Platform d) = "linux")
      ∧ ManifestList.Digest (ManifestList.md_descriptor d) ≠ ""
      ∧ ManifestList.Double.select
          [ManifestList.Double.entry "arm64" "linux" "sha256:aa";
           ManifestList.Double.entry "amd64" "linux" "sha256:bb"]
        = ManifestList.fetchManifest (list string) (bytes * string)
            ManifestList.Double.GetTargetManifest
            ManifestList.Double.manifestInstanceFromBlob
            (ManifestList.Digest (ManifestList.md_descriptor d)) [].
Proof.
  exact (ManifestListFurther.manifestSchema2FromManifestList_cases
           "amd64" "linux" (list string) (bytes * string)
           (λ _, Ok (ManifestList.Double.listOf
                       [ManifestList.Double.entry "arm64" "linux" "sha256:aa";
                        ManifestList.Double.entry "amd64" "linux"
                          "sha256:bb"]))
           ManifestList.Double.GetTargetManifest
           ManifestList.Double.manifestInstanceFromBlob "{}" _ [] eq_refl).
Defined.

Lemma manifestSchema2FromManifestList_key_witness :
  let entries :=
    [ManifestList.Double.entry "arm64" "linux" "sha256:aa";
     ManifestList.Double.entry "amd64" "linux" "sha256:bb"] in
  let renamed :=
    [{| ManifestList.md_descriptor :=
          {| ManifestList.MediaType := "text/plain";
             ManifestList.Size := 0;
             ManifestList.Digest := "sha256:aa" |};
        ManifestList.Platform :=
          {| ManifestList.Architecture := "arm64";
             ManifestList.OS := "linux";
             ManifestList.OSVersion := "4.9";
             ManifestList.OSFeatures := ["sse4"];
             ManifestList.Variant := "v8";
             ManifestList.Features := [] |} |};
     ManifestList.Double.entry "amd64" "linux" "sha256:bb"] in
  ManifestList.Double.select entries = ManifestList.Double.select renamed.
Proof.
  intros entries renamed.
  exact (ManifestListFurther.manifestSchema2FromManifestList_key
           "amd64" "linux" (list string) (bytes * string)
           (λ blob, if String.eqb blob "first"
                    then Ok (ManifestList.Double.listOf entries)
                    else Ok (ManifestList.Double.listOf renamed))
           ManifestList.Double.GetTargetManifest
           ManifestList.Double.manifestInstanceFromBlob
           "first" "second" _ _ [] eq_refl eq_refl eq_refl).
Defined.
